(** * A shallow embedding of the webhook server (src/server.js)

    The server keeps three process-wide stores (received webhooks,
    extraction results, access tokens), guards some routes with a token
    check, looks for URLs in incoming payloads and fetches them.

    JavaScript strings are sequences of UTF-16 code units; they are
    modelled as lists of code units.  The stores are explicit state that is
    threaded through a small state-and-exception monad, so that a
    [try]/[catch] of the source is a combinator of the model.

    Conventions of the model:
    - a handler runs from its first statement to its answer without another
      request being served in between (the source suspends a handler at
      every [await]; what other requests do meanwhile is not modelled);
    - usage counters and readings of the clock are integers, kept exactly
      (the engine's numbers are exact on integers below 2^53);
    - a time stamp is kept as the reading of the clock it renders;
    - what is printed on the terminal is not kept, but a console line stays
      in the model where evaluating its argument can throw. *)

From Stdlib Require Import ZArith NArith List Ascii String Lia Bool Sorted.
From stdpp Require Import base option list sorting gmap strings pretty.

Set Warnings "-register-all".
Open Scope N_scope.

(** ** JavaScript strings *)

Abbreviation jschar := N (only parsing).
Abbreviation jsstring := (list N) (only parsing).

(** A string literal of the source, as code units. *)
Definition lit (s : string) : jsstring :=
  map N_of_ascii (list_ascii_of_string s).

(** The code unit of the double quote. *)
Definition dquote : jschar := 34.

(** [s.startsWith(p)] *)
Fixpoint starts_with (p s : jsstring) : bool :=
  match p, s with
  | [], _ => true
  | _ :: _, [] => false
  | a :: p', b :: s' => (a =? b) && starts_with p' s'
  end.

(** [s.includes(p)]: [p] occurs in [s] as a run of consecutive units. *)
Fixpoint includes (p s : jsstring) : bool :=
  starts_with p s ||
  match s with
  | [] => false
  | _ :: s' => includes p s'
  end.

(** [s.replace(p, '')] with a string pattern: the first occurrence of [p]
    is removed, wherever it is; without an occurrence [s] is returned. *)
Fixpoint replace_first (p s : jsstring) : jsstring :=
  if starts_with p s then drop (length p) s
  else match s with
       | [] => []
       | c :: s' => c :: replace_first p s'
       end.

(** [Number.prototype.toString()] of an integer-valued number such as a
    reading of [Date.now()]: its decimal digits. *)
Definition Number_toString (n : Z) : jsstring := lit (pretty n).


(** [s.trim()] and the regular-expression class [\s] share one set of code
    units: the white space and line terminators of ECMAScript. *)
Definition is_space (c : jschar) : bool :=
  (c =? 9) || (c =? 10) || (c =? 11) || (c =? 12) || (c =? 13) || (c =? 32)
  || (c =? 160) || (c =? 5760) || ((8192 <=? c) && (c <=? 8202))
  || (c =? 8232) || (c =? 8233) || (c =? 8239) || (c =? 8287)
  || (c =? 12288) || (c =? 65279).

Fixpoint trim_start (s : jsstring) : jsstring :=
  match s with
  | c :: s' => if is_space c then trim_start s' else s
  | [] => []
  end.

Definition trim (s : jsstring) : jsstring :=
  rev (trim_start (rev (trim_start s))).

(** [s.replace(/\s+/g, ' ')]: every run of white space becomes one space. *)
Fixpoint collapse_spaces (s : jsstring) : jsstring :=
  match s with
  | [] => []
  | c :: s' =>
      if is_space c then
        match s' with
        | d :: _ => if is_space d then collapse_spaces s'
                    else 32 :: collapse_spaces s'
        | [] => [32]
        end
      else c :: collapse_spaces s'
  end.

(** ** The URL pattern of the ingestion handlers

    The pattern is [https?:] followed by two slashes and by one or more
    units of a negated class, with the global flag.  The class excludes
    white space, the double quote, [<] and [>]. *)

(** The negated class: any unit but white space, double quote, [<], [>]. *)
Definition url_char (c : jschar) : bool :=
  negb (is_space c || (c =? dquote) || (c =? 60) || (c =? 62)).

(** The longest run of class members at the head of [s], and what follows. *)
Fixpoint span_url (s : jsstring) : jsstring * jsstring :=
  match s with
  | c :: s' =>
      if url_char c then let '(w, r) := span_url s' in (c :: w, r)
      else ([], s)
  | [] => ([], [])
  end.

Definition strip_prefix (p s : jsstring) : option jsstring :=
  if starts_with p s then Some (drop (length p) s) else None.

(** The pattern behind the scheme name [scheme]: the match and the rest
    of the text.  The class is taken greedily and nothing follows it in the
    pattern, so there is nothing to give back. *)
Definition urlRegex_tail (scheme s : jsstring)
  : option (jsstring * jsstring) :=
  match strip_prefix (lit "://") s with
  | None => None
  | Some s' =>
      match span_url s' with
      | ([], _) => None
      | (w, r) => Some (scheme ++ lit "://" ++ w, r)
      end
  end.

(** One attempt of the pattern at the head of [s].  [s?] first takes the
    letter when it is there and is retried without it when the rest fails. *)
Definition urlRegex_at (s : jsstring) : option (jsstring * jsstring) :=
  match strip_prefix (lit "http") s with
  | None => None
  | Some s1 =>
      match
        match strip_prefix (lit "s") s1 with
        | Some s2 => urlRegex_tail (lit "https") s2
        | None => None
        end
      with
      | Some m => Some m
      | None => urlRegex_tail (lit "http") s1
      end
  end.

(** The global search: an attempt at every position from left to right; a
    match is recorded and the search goes on behind it.  Every round
    consumes at least one unit, so [length s] rounds are enough. *)
Fixpoint urlRegex_scan (fuel : nat) (s : jsstring) : list jsstring :=
  match fuel with
  | O => []
  | S fuel' =>
      match s with
      | [] => []
      | _ :: s' =>
          match urlRegex_at s with
          | Some (u, rest) => u :: urlRegex_scan fuel' rest
          | None => urlRegex_scan fuel' s'
          end
      end
  end.

(** [bodyStr.match(urlRegex)]: the array of all matches, [null] when there
    is none. *)
Definition String_match_urlRegex (bodyStr : jsstring)
  : option (list jsstring) :=
  match urlRegex_scan (length bodyStr) bodyStr with
  | [] => None
  | foundUrls => Some foundUrls
  end.

(** ** JavaScript values

    Request bodies, decoded responses and display names are JSON values.
    The type of numbers (IEEE doubles in the engine) is left abstract: the
    server only renders them and tests them for truth. *)

Section Values.
Context {number : Type}.

Inductive JsValue : Type :=
| JNull
| JBool (b : bool)
| JNum (n : number)
| JStr (s : jsstring)
| JArr (items : list JsValue)
| JObj (props : list (jsstring * JsValue)).

(** [typeof v === 'object'] for a value that is not [null]. *)
Definition is_object (v : JsValue) : bool :=
  match v with
  | JArr _ | JObj _ => true
  | _ => false
  end.

(** Reading property [k] of an object of own properties [props]. *)
Fixpoint own_property (k : jsstring) (props : list (jsstring * JsValue))
  : option JsValue :=
  match props with
  | [] => None
  | (k', v) :: props' =>
      if bool_decide (k' = k) then Some v else own_property k props'
  end.

(** A template literal with [v] in it converts [v] to a string.  For data
    that came out of a JSON parser this fails exactly when an object
    carries an own property [toString] (which, being data, is not
    callable; the inherited [valueOf] then returns the object itself), or
    when an array, joined element by element, contains such an object. *)
Fixpoint ToString_throws (v : JsValue) : bool :=
  match v with
  | JObj props => existsb (λ kv, bool_decide (kv.1 = lit "toString")) props
  | JArr items => existsb ToString_throws items
  | _ => false
  end.
End Values.

Arguments JsValue : clear implicits.

(** Values of [req.query] as the query-string parser builds them: strings,
    arrays ([?token=a&token=b]) and nested objects ([?token[k]=a]). *)
Inductive QueryValue : Type :=
| QStr (s : jsstring)
| QArr (items : list QueryValue)
| QObj (props : list (jsstring * QueryValue)).

(** ** [JSON.stringify] *)

Definition hex_digit (d : N) : jschar :=
  if d <? 10 then 48 + d else 87 + d.

(** The escape [\uXXXX] with lower-case digits. *)
Definition unicode_escape (c : jschar) : jsstring :=
  lit "\u" ++ [hex_digit (c / 4096 mod 16); hex_digit (c / 256 mod 16);
               hex_digit (c / 16 mod 16); hex_digit (c mod 16)].

Definition is_high_surrogate (c : jschar) : bool :=
  (55296 <=? c) && (c <=? 56319).
Definition is_low_surrogate (c : jschar) : bool :=
  (56320 <=? c) && (c <=? 57343).

Definition escape_unit (c : jschar) : jsstring :=
  if c =? 8 then lit "\b"
  else if c =? 9 then lit "\t"
  else if c =? 10 then lit "\n"
  else if c =? 12 then lit "\f"
  else if c =? 13 then lit "\r"
  else if c =? dquote then [92; dquote]
  else if c =? 92 then [92; 92]
  else if c <? 32 then unicode_escape c
  else [c].

(** The characters of a quoted string; a surrogate that is not half of a
    pair is written as an escape. *)
Fixpoint quote_units (s : jsstring) : jsstring :=
  match s with
  | [] => []
  | c :: s' =>
      if is_high_surrogate c then
        match s' with
        | d :: s'' =>
            if is_low_surrogate d then c :: d :: quote_units s''
            else unicode_escape c ++ quote_units s'
        | [] => unicode_escape c
        end
      else if is_low_surrogate c then unicode_escape c ++ quote_units s'
      else escape_unit c ++ quote_units s'
  end.

Definition JSON_quote (s : jsstring) : jsstring :=
  dquote :: quote_units s ++ [dquote].

Fixpoint join_comma (parts : list jsstring) : jsstring :=
  match parts with
  | [] => []
  | [x] => x
  | x :: parts' => x ++ lit "," ++ join_comma parts'
  end.

Section Stringify.
Context {number : Type} (JSON_number : number → jsstring).

(** [JSON.stringify(v)] without indentation, for a value built by a JSON
    or form parser; own properties are listed in [props] in the order in
    which the engine enumerates them. *)
Fixpoint JSON_stringify (v : JsValue number) : jsstring :=
  match v with
  | JNull => lit "null"
  | JBool true => lit "true"
  | JBool false => lit "false"
  | JNum n => JSON_number n
  | JStr s => JSON_quote s
  | JArr items => lit "[" ++ join_comma (map JSON_stringify items) ++ lit "]"
  | JObj props =>
      lit "{" ++
      join_comma (map (λ kv, JSON_quote kv.1 ++ lit ":" ++ JSON_stringify kv.2)
                      props) ++
      lit "}"
  end.
End Stringify.

(** ** Exceptions and results of the extractor *)

(** A thrown error, as far as the server looks at it: [error.message]. *)
Record JsError := { message : jsstring }.

Inductive Outcome (A : Type) : Type :=
| Returned (a : A)
| Thrown (e : JsError).
Arguments Returned {A} a.
Arguments Thrown {A} e.

(** What the transport hands back for a fetch that succeeded:
    [response.headers['content-type']] and [response.data].  The transport
    decodes a body that parses as JSON whatever its declared type, so the
    data is a JSON value and not always a string. *)
Record AxiosResponse (number : Type) := {
  content_type : option jsstring;
  data : JsValue number
}.
Arguments content_type {number} _.
Arguments data {number} _.

(** What the handlers read off a parsed page: [$('title').text()],
    [$('meta[name=description]').attr('content')], [$('body').text()], the
    [href] of every [a[href]] and the [src] of every [img[src]]. *)
Record CheerioDoc := {
  title_text : jsstring;
  meta_description : option jsstring;
  body_text : jsstring;
  anchor_hrefs : list jsstring;
  img_srcs : list jsstring
}.

Section Records.
Context {number : Type}.

(** The object returned by [extractDataFromUrl]; [ec_url] is the [url]
    argument as it was passed and the time stamps are clock readings
    (stored in ISO form by the source). *)
Inductive ExtractedContent : Type :=
| ec_json (data : JsValue number) (ec_url : JsValue number) (timestamp : Z)
| ec_html (title description text : jsstring) (links images : list jsstring)
          (ec_url : JsValue number) (timestamp : Z)
| ec_text (content : JsValue number) (ec_url : JsValue number) (timestamp : Z)
| ec_other (contentType : jsstring) (content : JsValue number)
           (ec_url : JsValue number) (timestamp : Z)
| ec_error (error : jsstring) (ec_url : JsValue number) (timestamp : Z).

(** The [type] field. *)
Inductive Kind := kind_json | kind_html | kind_text | kind_other | kind_error.

Definition ec_type (c : ExtractedContent) : Kind :=
  match c with
  | ec_json _ _ _ => kind_json
  | ec_html _ _ _ _ _ _ _ => kind_html
  | ec_text _ _ _ => kind_text
  | ec_other _ _ _ _ => kind_other
  | ec_error _ _ _ => kind_error
  end.

Definition url_of (c : ExtractedContent) : JsValue number :=
  match c with
  | ec_json _ u _ | ec_html _ _ _ _ _ u _ | ec_text _ u _
  | ec_other _ _ u _ | ec_error _ u _ => u
  end.

(** An inbound request as the handlers see it. *)
Record Request := {
  req_headers : gmap jsstring jsstring;
  req_body : option (JsValue number);
  req_query : gmap jsstring QueryValue;
  req_method : jsstring;
  req_url : jsstring;
  req_ip : jsstring
}.

(** An element of [webhookData]. *)
Record WebhookRecord := {
  wh_id : jsstring;
  wh_timestamp : Z;
  wh_headers : gmap jsstring jsstring;
  wh_body : option (JsValue number);
  wh_query : gmap jsstring QueryValue;
  wh_method : jsstring;
  wh_url : jsstring;
  wh_ip : jsstring
}.

(** A value of the map [webhookTokens]. *)
Record TokenData := {
  name : JsValue number;
  created : Z;
  lastUsed : option Z;
  usageCount : N
}.

(** A request sent by the transport. *)
Record Outbound := {
  out_url : JsValue number;
  out_headers : list (jsstring * jsstring)
}.

(** The JSON bodies the handlers send; the first three carry
    [success: false], the others [success: true]. *)
Inductive ResBody : Type :=
| res_auth_failure (msg hint : jsstring)
| res_failure (msg : jsstring)
| res_internal_error (msg err : jsstring)
| res_webhook (msg webhookId : jsstring) (timestamp : Z) (urlsFound : nat)
              (extracted : option (list ExtractedContent))
| res_batch (msg : jsstring) (results : list ExtractedContent)
| res_token_created (msg token : jsstring) (token_name : JsValue number)
| res_done (msg : jsstring).

Definition success (b : ResBody) : bool :=
  match b with
  | res_auth_failure _ _ | res_failure _ | res_internal_error _ _ => false
  | _ => true
  end.

Record Response := { status : Z; json : ResBody }.

(** The stores of the process, with the number of clock readings and of
    random draws made so far and the requests sent so far (oldest
    first). *)
Record State := {
  webhookData : list WebhookRecord;
  extractedData : list ExtractedContent;
  webhookTokens : gmap jsstring TokenData;
  clock_reads : nat;
  random_draws : nat;
  outbound : list Outbound
}.
End Records.

Arguments ExtractedContent : clear implicits.
Arguments Request : clear implicits.
Arguments WebhookRecord : clear implicits.
Arguments TokenData : clear implicits.
Arguments Outbound : clear implicits.
Arguments ResBody : clear implicits.
Arguments Response : clear implicits.
Arguments State : clear implicits.

(** ** The environment of the process

    Everything the server obtains from outside: the engine's treatment of
    numbers, the clock, the random generator, the network behind the
    transport and the HTML parser.  Clock readings, random draws and
    fetches are numbered in the order in which the process makes them. *)
Record World := {
  number : Type;
  (** [JSON.stringify] of a number *)
  JSON_number : number → jsstring;
  (** whether a number counts as true in a condition *)
  number_truthy : number → bool;
  (** [n.toString(36)] *)
  Number_toString36 : number → jsstring;
  (** the reading of [Date.now()] or [new Date()] at the [k]-th look *)
  clock : nat → Z;
  (** the [k]-th result of [Math.random()] *)
  random : nat → number;
  (** [axios.get(url, {timeout, headers})] as the [k]-th fetch: a response,
      or the error it rejects with *)
  network : nat → JsValue number → list (jsstring * jsstring) →
            Outcome (AxiosResponse number);
  (** [cheerio.load(data)] and the queries made on the page, or the error
      raised on the way *)
  cheerio : JsValue number → Outcome CheerioDoc;
  (** [process.env.NODE_ENV === 'production'] *)
  production : bool
}.

(** ** State and exceptions

    A computation starts in a state and ends in a state, with a value or
    with a thrown error; what was written before a [throw] stays
    written. *)
Definition M (S A : Type) : Type := S → Outcome A * S.

Definition ret {S A} (a : A) : M S A := λ s, (Returned a, s).

Definition bind {S A B} (m : M S A) (k : A → M S B) : M S B :=
  λ s, match m s with
       | (Returned a, s') => k a s'
       | (Thrown e, s') => (Thrown e, s')
       end.

Definition throw {S A} (e : JsError) : M S A := λ s, (Thrown e, s).

(** [try { body } catch (error) { handler }] *)
Definition try_catch {S A} (body : M S A) (handler : JsError → M S A)
  : M S A :=
  λ s, match body s with
       | (Returned a, s') => (Returned a, s')
       | (Thrown e, s') => handler e s'
       end.

Notation "'let!' x ':=' m 'in' k" := (bind m (λ x, k))
  (at level 10, x pattern, m at level 100, k at level 200,
   format "'[v' 'let!'  x  ':='  m  'in' '/' k ']'").
Notation "m ';;!' k" := (bind m (λ _, k))
  (at level 100, k at level 200, right associativity).

(** A handler's local array next to the stores: computations on the stores
    run unchanged, and [push] appends to the array. *)
Definition on_stores {S L A} (m : M S A) : M (S * L) A :=
  λ sl, match m sl.1 with (r, s') => (r, (s', sl.2)) end.

Definition local_push {S X} (x : X) : M (S * list X) unit :=
  λ sl, (Returned tt, (sl.1, sl.2 ++ [x])).

(** Runs [m] with the local array initially [l] and hands back the array. *)
Definition with_local {S L A} (l : L) (m : M (S * L) A) : M S (A * L) :=
  λ s, match m (s, l) with
       | (Returned a, (s', l')) => (Returned (a, l'), s')
       | (Thrown e, (s', _)) => (Thrown e, s')
       end.

(** [for (const x of xs) { body }] *)
Fixpoint for_of {S X} (xs : list X) (body : X → M S unit) : M S unit :=
  match xs with
  | [] => ret tt
  | x :: xs' => body x ;;! for_of xs' body
  end.

(** Messages of the engine's [TypeError]s (wording of V8). *)
Definition TypeError_not_primitive : JsError :=
  {| message := lit "Cannot convert object to primitive value" |}.
Definition TypeError_substring {number} (content : JsValue number) : JsError :=
  match content with
  | JNull =>
      {| message := lit "Cannot read properties of null (reading 'substring')" |}
  | _ =>
      {| message := lit "extractedContent.content.substring is not a function" |}
  end.
Definition TypeError_destructure (property what : string) : JsError :=
  {| message := lit "Cannot destructure property '" ++ lit property ++
                lit "' of 'req.body' as it is " ++ lit what ++ lit "." |}.

(** Truth of a JSON value in a condition. *)
Definition truthy (W : World) (v : JsValue (number W)) : bool :=
  match v with
  | JNull => false
  | JBool b => b
  | JNum n => number_truthy W n
  | JStr s => negb (bool_decide (s = []))
  | JArr _ | JObj _ => true
  end.

(** ** The server *)

Section Server.
Context (W : World).

Abbreviation value := (JsValue (number W)).
Abbreviation content := (ExtractedContent (number W)).
Abbreviation state := (State (number W)).
Abbreviation request := (Request (number W)).
Abbreviation response := (Response (number W)).

(** *** Primitives *)

(** [Date.now()] and [new Date()]: the next reading of the clock. *)
Definition Date_now : M state Z :=
  λ s, (Returned (clock W (clock_reads s)),
        {| webhookData := webhookData s; extractedData := extractedData s;
           webhookTokens := webhookTokens s;
           clock_reads := S (clock_reads s);
           random_draws := random_draws s; outbound := outbound s |}).

(** [Math.random()] *)
Definition Math_random : M state (number W) :=
  λ s, (Returned (random W (random_draws s)),
        {| webhookData := webhookData s; extractedData := extractedData s;
           webhookTokens := webhookTokens s; clock_reads := clock_reads s;
           random_draws := S (random_draws s); outbound := outbound s |}).

(** [await axios.get(url, { timeout: 10000, headers })] *)
Definition axios_get (url : value) (headers : list (jsstring * jsstring))
  : M state (AxiosResponse (number W)) :=
  λ s, (network W (length (outbound s)) url headers,
        {| webhookData := webhookData s; extractedData := extractedData s;
           webhookTokens := webhookTokens s; clock_reads := clock_reads s;
           random_draws := random_draws s;
           outbound := outbound s ++
                       [{| out_url := url; out_headers := headers |}] |}).

Definition webhookData_push (r : WebhookRecord (number W)) : M state unit :=
  λ s, (Returned tt,
        {| webhookData := webhookData s ++ [r];
           extractedData := extractedData s;
           webhookTokens := webhookTokens s; clock_reads := clock_reads s;
           random_draws := random_draws s; outbound := outbound s |}).

Definition extractedData_push (c : content) : M state unit :=
  λ s, (Returned tt,
        {| webhookData := webhookData s;
           extractedData := extractedData s ++ [c];
           webhookTokens := webhookTokens s; clock_reads := clock_reads s;
           random_draws := random_draws s; outbound := outbound s |}).

Definition set_webhookTokens (f : gmap jsstring (TokenData (number W)) →
                                  gmap jsstring (TokenData (number W)))
  : M state unit :=
  λ s, (Returned tt,
        {| webhookData := webhookData s; extractedData := extractedData s;
           webhookTokens := f (webhookTokens s);
           clock_reads := clock_reads s;
           random_draws := random_draws s; outbound := outbound s |}).

Definition get_webhookTokens : M state (gmap jsstring (TokenData (number W))) :=
  λ s, (Returned (webhookTokens s), s).

(** A console line whose template mentions [v]. *)
Definition console_template {S} (v : value) : M S unit :=
  if ToString_throws v then throw TypeError_not_primitive else ret tt.

(** *** Tokens *)

Definition defaultToken : jsstring := lit "webhook-secret-2024".

(** The stores when the process starts listening: the default token was
    registered with the first reading of the clock. *)
Definition initial_state : state :=
  {| webhookData := []; extractedData := [];
     webhookTokens :=
       {[ defaultToken := {| name := JStr (lit "Default Token");
                            created := clock W 0;
                            lastUsed := None; usageCount := 0 |} ]};
     clock_reads := 1; random_draws := 0; outbound := [] |}.

(** Truth of a header or query value that may be missing. *)
Definition q_truthy (v : option QueryValue) : bool :=
  match v with
  | None => false
  | Some (QStr s) => negb (bool_decide (s = []))
  | Some _ => true
  end.

(** [a || b] *)
Definition js_or (a b : option QueryValue) : option QueryValue :=
  if q_truthy a then a else b.

(** The first line of [validateWebhookToken]:
    [req.headers['x-webhook-token'] ||
     req.headers['authorization']?.replace('Bearer ', '') ||
     req.query.token]. *)
Definition request_token (req : request) : option QueryValue :=
  js_or (QStr <$> req_headers req !! lit "x-webhook-token")
    (js_or (QStr <$> (replace_first (lit "Bearer ") <$>
                      req_headers req !! lit "authorization"))
           (req_query req !! lit "token")).

Definition token_required : response :=
  {| status := 401;
     json := res_auth_failure (lit "Webhook token required")
               (lit "Add X-Webhook-Token header or ?token=your-token query parameter") |}.

Definition token_invalid : response :=
  {| status := 401;
     json := res_auth_failure (lit "Invalid webhook token")
               (lit "Use a valid token or create a new one") |}.

(** [webhookTokens.get(token)]; keys are strings, so a value of another
    type is never found. *)
Definition Map_get (tokens : gmap jsstring (TokenData (number W)))
           (token : option QueryValue)
  : option (jsstring * TokenData (number W)) :=
  match token with
  | Some (QStr t) => (λ d, (t, d)) <$> tokens !! t
  | _ => None
  end.

(** The middleware: either it answers itself ([inl]), or it hands over to
    the route's handler with [req.webhookToken] set ([inr]). *)
Definition validateWebhookToken (req : request)
  : M state (response + jsstring) :=
  let token := request_token req in
  if negb (q_truthy token) then ret (inl token_required)
  else
    let! tokens := get_webhookTokens in
    match Map_get tokens token with
    | None => ret (inl token_invalid)
    | Some (t, tokenData) =>
        let! now := Date_now in
        set_webhookTokens
          (λ m, <[t := {| name := name tokenData;
                          created := created tokenData;
                          lastUsed := Some now;
                          usageCount := usageCount tokenData + 1 |}]> m) ;;!
        ret (inr t)
    end.

(** [Math.random().toString(36).substring(2, 15)] on the draw [r]. *)
Definition random_suffix (r : number W) : jsstring :=
  take 13 (drop 2 (Number_toString36 W r)).

(** ['webhook-' + Date.now() + '-' + suffix] *)
Definition newToken (now : Z) (suffix : jsstring) : jsstring :=
  lit "webhook-" ++ Number_toString now ++ lit "-" ++ suffix.

(** [name || 'Generated Token'] *)
Definition token_name (nm : option value) : value :=
  match nm with
  | Some v => if truthy W v then v else JStr (lit "Generated Token")
  | None => JStr (lit "Generated Token")
  end.

(** [const { k } = req.body]: the property, [undefined] when the body
    has none of that name; a body that is [undefined] or [null] cannot be
    taken apart. *)
Definition destructure {S} (k : string) (body : option value)
  : M S (option value) :=
  match body with
  | None => throw (TypeError_destructure k "undefined")
  | Some JNull => throw (TypeError_destructure k "null")
  | Some (JObj props) => ret (own_property (lit k) props)
  | Some _ => ret None
  end.

(** The handler of [POST /tokens]. *)
Definition create_token (req : request) : M state response :=
  let! nm := destructure "name" (req_body req) in
  let! now := Date_now in
  let! r := Math_random in
  let token := newToken now (random_suffix r) in
  let! created_at := Date_now in
  set_webhookTokens
    (λ m, <[token := {| name := token_name nm; created := created_at;
                        lastUsed := None; usageCount := 0 |}]> m) ;;!
  ret {| status := 200;
         json := res_token_created (lit "Token created successfully")
                   token (token_name nm) |}.

(** The handler of [DELETE /tokens/:token]. *)
Definition delete_token (token : jsstring) : M state response :=
  let! tokens := get_webhookTokens in
  match tokens !! token with
  | None => ret {| status := 404; json := res_failure (lit "Token not found") |}
  | Some _ =>
      set_webhookTokens (λ m, delete token m) ;;!
      ret {| status := 200;
             json := res_done (lit "Token deleted successfully") |}
  end.

(** *** The content extractor *)

Definition userAgent : jsstring :=
  lit "Mozilla/5.0 (Windows NT 10.0; Win64; x64) AppleWebKit/537.36 (KHTML, like Gecko) Chrome/91.0.4472.124 Safari/537.36".

(** The [headers] object of the outbound request, in insertion order;
    [if (token)] holds for a string that is not empty. *)
Definition request_headers (token : option jsstring)
  : list (jsstring * jsstring) :=
  (lit "User-Agent", userAgent) ::
  match token with
  | Some t =>
      if bool_decide (t = []) then []
      else [(lit "Authorization", lit "Bearer " ++ t); (lit "X-API-Key", t)]
  | None => []
  end.

(** [cheerio.load(response.data)] with the queries of the HTML branch. *)
Definition cheerio_load {S} (d : value) : M S CheerioDoc :=
  match cheerio W d with
  | Returned doc => ret doc
  | Thrown e => throw e
  end.

Definition extractDataFromUrl (url : value) (token : option jsstring)
  : M state content :=
  try_catch
    (console_template url ;;!
     let headers := request_headers token in
     let! response := axios_get url headers in
     let contentType := default [] (content_type response) in
     if includes (lit "application/json") contentType then
       let! now := Date_now in
       ret (ec_json (data response) url now)
     else if includes (lit "text/html") contentType then
       let! doc := cheerio_load (data response) in
       let! now := Date_now in
       ret (ec_html (trim (title_text doc))
                    (default [] (meta_description doc))
                    (trim (collapse_spaces (body_text doc)))
                    (anchor_hrefs doc) (img_srcs doc) url now)
     else if includes (lit "text/plain") contentType
             || includes (lit "text/markdown") contentType then
       let! now := Date_now in
       ret (ec_text (data response) url now)
     else
       let! now := Date_now in
       ret (ec_other contentType (data response) url now))
    (λ error,
       console_template url ;;!
       let! now := Date_now in
       ret (ec_error (message error) url now)).

(** The block that prints a result on the terminal.  Nothing of it is
    kept; it matters because [content.substring] is called on the
    content of a [text] result, which only strings have. *)
Definition display {S} (url : value) (c : content) : M S unit :=
  console_template url ;;!
  match c with
  | ec_text (JStr _) _ _ => ret tt
  | ec_text v _ _ => throw (TypeError_substring v)
  | _ => ret tt
  end.

(** *** URL discovery and ingestion *)

(** The URLs of a request: every match of the pattern in the serialized
    body when the body is an object, then the [referer] header when it
    is there and not empty.  Both ingestion handlers contain this code. *)
Definition discoverUrls (body : option value)
           (headers : gmap jsstring jsstring) : list jsstring :=
  match body with
  | Some b =>
      if is_object b then
        default [] (String_match_urlRegex (JSON_stringify (JSON_number W) b))
      else []
  | None => []
  end ++
  match headers !! lit "referer" with
  | Some referer => if bool_decide (referer = []) then [] else [referer]
  | None => []
  end.

(** One round of the loop over the discovered URLs; [extractedResults]
    is the local array. *)
Definition ingest_round (credential : option jsstring) (url : jsstring)
  : M (state * list content) unit :=
  try_catch
    (let! extractedContent :=
       on_stores (extractDataFromUrl (JStr url) credential) in
     local_push extractedContent ;;!
     on_stores (extractedData_push extractedContent) ;;!
     display (JStr url) extractedContent)
    (λ error, ret tt).

(** The body shared by the handlers of [POST /webhook] and
    [POST /webhook-public]; they differ in the credential given to the
    extractor and in the message of the answer. *)
Definition ingest (credential : option jsstring) (msg : jsstring)
           (req : request) : M state response :=
  try_catch
    (let! now := Date_now in
     let! stamp := Date_now in
     let webhookPayload :=
       {| wh_id := Number_toString now; wh_timestamp := stamp;
          wh_headers := req_headers req; wh_body := req_body req;
          wh_query := req_query req; wh_method := req_method req;
          wh_url := req_url req; wh_ip := req_ip req |} in
     webhookData_push webhookPayload ;;!
     let urlsToExtract := discoverUrls (req_body req) (req_headers req) in
     let! (_, extractedResults) :=
       with_local [] (for_of urlsToExtract (ingest_round credential)) in
     ret {| status := 200;
            json := res_webhook msg (wh_id webhookPayload) stamp
                      (length urlsToExtract)
                      (match extractedResults with
                       | [] => None
                       | _ => Some extractedResults
                       end) |})
    (λ error,
       ret {| status := 500;
              json := res_internal_error (lit "Internal server error")
                        (message error) |}).

(** A route behind the middleware. *)
Definition gated (handler : request → jsstring → M state response)
           (req : request) : M state response :=
  let! checked := validateWebhookToken req in
  match checked with
  | inl answer => ret answer
  | inr webhookToken => handler req webhookToken
  end.

Definition post_webhook : request → M state response :=
  gated (λ req webhookToken,
           ingest (Some webhookToken) (lit "Webhook received successfully") req).

Definition post_webhook_public : request → M state response :=
  ingest None (lit "Public webhook received successfully").

(** *** Batch extraction *)

(** One round of the loop over [urls]; [results] is the local array. *)
Definition batch_round (webhookToken : jsstring) (url : value)
  : M (state * list content) unit :=
  try_catch
    (let! extractedContent :=
       on_stores (extractDataFromUrl url (Some webhookToken)) in
     local_push extractedContent ;;!
     on_stores (extractedData_push extractedContent) ;;!
     display url extractedContent)
    (λ error,
       let! now := on_stores Date_now in
       local_push (ec_error (message error) url now) ;;!
       console_template url).

(** The handler of [POST /extract-batch], behind the middleware. *)
Definition extract_batch (req : request) (webhookToken : jsstring)
  : M state response :=
  try_catch
    (let! urls := destructure "urls" (req_body req) in
     match urls with
     | Some (JArr urls) => (* [urls] is truthy and an array *)
         let! (_, results) :=
           with_local [] (for_of urls (batch_round webhookToken)) in
         ret {| status := 200;
                json := res_batch
                          (lit "Extracted data from " ++
                           Number_toString (Z.of_nat (length urls)) ++
                           lit " URLs")
                          results |}
     | _ =>
         ret {| status := 400;
                json := res_failure (lit "URLs array is required") |}
     end)
    (λ error,
       ret {| status := 500;
              json := res_internal_error (lit "Internal server error")
                        (message error) |}).

Definition post_extract_batch : request → M state response :=
  gated extract_batch.

(** *** The process *)

(** [DELETE /webhooks] and [DELETE /extracted] *)
Definition delete_webhooks : M state response :=
  λ s, (Returned {| status := 200;
                    json := res_done (lit "All webhooks cleared") |},
        {| webhookData := []; extractedData := extractedData s;
           webhookTokens := webhookTokens s; clock_reads := clock_reads s;
           random_draws := random_draws s; outbound := outbound s |}).

Definition delete_extracted : M state response :=
  λ s, (Returned {| status := 200;
                    json := res_done (lit "All extracted data cleared") |},
        {| webhookData := webhookData s; extractedData := [];
           webhookTokens := webhookTokens s; clock_reads := clock_reads s;
           random_draws := random_draws s; outbound := outbound s |}).

(** The last middleware: an error thrown by a handler becomes a 500. *)
Definition error_middleware (m : M state response) : M state response :=
  try_catch m
    (λ error,
       ret {| status := 500;
              json := res_internal_error (lit "Internal server error")
                        (if production W then lit "Something went wrong"
                         else message error) |}).

(** The calls that change a store. *)
Inductive Call : Type :=
| POST_webhook (req : request)
| POST_webhook_public (req : request)
| POST_extract_batch (req : request)
| POST_tokens (req : request)
| DELETE_tokens (token : jsstring)
| DELETE_webhooks
| DELETE_extracted.

Definition serve (c : Call) : M state response :=
  error_middleware
    match c with
    | POST_webhook req => post_webhook req
    | POST_webhook_public req => post_webhook_public req
    | POST_extract_batch req => post_extract_batch req
    | POST_tokens req => create_token req
    | DELETE_tokens token => delete_token token
    | DELETE_webhooks => delete_webhooks
    | DELETE_extracted => delete_extracted
    end.

(** The stores after the calls [cs], served one after the other. *)
Definition run (cs : list Call) (s : state) : state :=
  fold_left (λ s c, snd (serve c s)) cs s.
End Server.

Arguments POST_webhook {W} req.
Arguments POST_webhook_public {W} req.
Arguments POST_extract_batch {W} req.
Arguments POST_tokens {W} req.
Arguments DELETE_tokens {W} token.
Arguments DELETE_webhooks {W}.
Arguments DELETE_extracted {W}.

(** ** The other routes *)

Section Reading.
Context {number : Type}.

(** The JSON bodies of the routes that read the stores and of
    [POST /extract]; the last two carry [success: false]. *)
Inductive ReadBody : Type :=
| rd_health (msg health : jsstring) (timestamp : Z) (totalWebhooks : nat)
| rd_webhooks (count : nat) (webhooks : list (WebhookRecord number))
| rd_webhook (webhook : WebhookRecord number)
| rd_extracted_all (count : nat) (extracted : list (ExtractedContent number))
| rd_extracted (msg : jsstring) (extractedContent : ExtractedContent number)
| rd_failure (msg : jsstring)
| rd_internal_error (msg err : jsstring).

Record Reply := { reply_status : Z; reply_json : ReadBody }.
End Reading.

Arguments ReadBody : clear implicits.
Arguments Reply : clear implicits.

Section Routes.
Context (W : World).

(** The stores as they are. *)
Definition stores {S} : M S S := λ s, (Returned s, s).

(** [GET /] *)
Definition health : M (State (number W)) (Reply (number W)) :=
  let! now := Date_now W in
  let! s := stores in
  ret {| reply_status := 200;
         reply_json := rd_health (lit "Simple Webhook Server is running!")
                         (lit "healthy") now (length (webhookData s)) |}.

(** [GET /webhooks] *)
Definition get_webhooks : M (State (number W)) (Reply (number W)) :=
  let! s := stores in
  ret {| reply_status := 200;
         reply_json := rd_webhooks (length (webhookData s)) (webhookData s) |}.

(** [GET /extracted] *)
Definition get_extracted : M (State (number W)) (Reply (number W)) :=
  let! s := stores in
  ret {| reply_status := 200;
         reply_json := rd_extracted_all (length (extractedData s))
                         (extractedData s) |}.

(** [GET /webhook/:id]: [webhookData.find(w => w.id === webhookId)], the
    first record with that id. *)
Definition get_webhook (webhookId : jsstring)
  : M (State (number W)) (Reply (number W)) :=
  let! s := stores in
  match find (λ w, bool_decide (wh_id w = webhookId)) (webhookData s) with
  | None =>
      ret {| reply_status := 404;
             reply_json := rd_failure (lit "Webhook not found") |}
  | Some webhook =>
      ret {| reply_status := 200; reply_json := rd_webhook webhook |}
  end.

(** [token.substring(0, 8) + '...'], what [GET /tokens] shows of a key. *)
Definition token_preview (token : jsstring) : jsstring :=
  take 8 token ++ lit "...".

(** The handler of [POST /extract], behind the middleware.  The result is
    stored before it is printed, and printing is inside the handler's
    [try]. *)
Definition extract_one (req : Request (number W)) (webhookToken : jsstring)
  : M (State (number W)) (Reply (number W)) :=
  try_catch
    (let! url := destructure W "url" (req_body req) in
     match url with
     | Some url =>
         if truthy W url then
           console_template W url ;;!
           let! extractedContent :=
             extractDataFromUrl W url (Some webhookToken) in
           extractedData_push W extractedContent ;;!
           display W url extractedContent ;;!
           ret {| reply_status := 200;
                  reply_json := rd_extracted
                                  (lit "Data extracted successfully")
                                  extractedContent |}
         else
           ret {| reply_status := 400;
                  reply_json := rd_failure (lit "URL is required") |}
     | None =>
         ret {| reply_status := 400;
                reply_json := rd_failure (lit "URL is required") |}
     end)
    (λ error,
       ret {| reply_status := 500;
              reply_json := rd_internal_error (lit "Internal server error")
                              (message error) |}).

(** [POST /extract]: the middleware's own answer, or the handler's. *)
Definition post_extract (req : Request (number W))
  : M (State (number W)) (Response (number W) + Reply (number W)) :=
  let! checked := validateWebhookToken W req in
  match checked with
  | inl answer => ret (inl answer)
  | inr webhookToken =>
      let! reply := extract_one req webhookToken in ret (inr reply)
  end.
End Routes.

(** ** The routes side by side *)

Section AllRoutes.
Context (W : World).

(** The [success] field of a body of the reading routes; the body of
    [GET /] has none. *)
Definition reply_success (body : ReadBody (number W)) : option bool :=
  match body with
  | rd_health _ _ _ _ => None
  | rd_webhooks _ _ | rd_webhook _ | rd_extracted_all _ _
  | rd_extracted _ _ => Some true
  | rd_failure _ | rd_internal_error _ _ => Some false
  end.

(** The calls of [Call], [POST /extract] and the routes that read the
    webhooks and the results.  ([GET /tokens] and the answer to an unknown
    path, which read and write none of the lists, are not among them.) *)
Inductive Route : Type :=
| changing (c : Call W)
| POST_extract (req : Request (number W))
| GET_root
| GET_webhooks
| GET_webhook (webhookId : jsstring)
| GET_extracted.

(** The answer of a route is the one of the calls of [Call] or the one of
    the other routes. *)
Definition route (r : Route)
  : M (State (number W)) (Response (number W) + Reply (number W)) :=
  match r with
  | changing c => let! answer := serve W c in ret (inl answer)
  | POST_extract req => post_extract W req
  | GET_root => let! reply := health W in ret (inr reply)
  | GET_webhooks => let! reply := get_webhooks W in ret (inr reply)
  | GET_webhook webhookId =>
      let! reply := get_webhook W webhookId in ret (inr reply)
  | GET_extracted => let! reply := get_extracted W in ret (inr reply)
  end.
End AllRoutes.

Arguments changing {W} c.
Arguments POST_extract {W} req.
Arguments GET_root {W}.
Arguments GET_webhooks {W}.
Arguments GET_webhook {W} webhookId.
Arguments GET_extracted {W}.

(** ** The first version of the server (src/unnamed/part_001)

    It has one store and no tokens: [POST /webhook] records the request
    and answers, without looking for URLs. *)
Module Legacy.
Section Legacy.
Context (W : World).

Record state := {
  webhookData : list (WebhookRecord (number W));
  clock_reads : nat
}.

(** The body of the answer of [POST /webhook]. *)
Inductive Body : Type :=
| received (msg webhookId : jsstring) (timestamp : Z)
| internal_error (msg err : jsstring).

Definition Date_now : M state Z :=
  λ s, (Returned (clock W (clock_reads s)),
        {| webhookData := webhookData s; clock_reads := S (clock_reads s) |}).

Definition webhookData_push (r : WebhookRecord (number W)) : M state unit :=
  λ s, (Returned tt,
        {| webhookData := webhookData s ++ [r];
           clock_reads := clock_reads s |}).

Definition post_webhook (req : Request (number W)) : M state (Z * Body) :=
  try_catch
    (let! now := Date_now in
     let! stamp := Date_now in
     let webhookPayload :=
       {| wh_id := Number_toString now; wh_timestamp := stamp;
          wh_headers := req_headers req; wh_body := req_body req;
          wh_query := req_query req; wh_method := req_method req;
          wh_url := req_url req; wh_ip := req_ip req |} in
     webhookData_push webhookPayload ;;!
     ret (200%Z, received (lit "Webhook received successfully")
                          (wh_id webhookPayload) stamp))
    (λ error,
       ret (500%Z, internal_error (lit "Internal server error")
                                  (message error))).
End Legacy.
End Legacy.

(** ** Readings used in the statements *)

(** [p] occurs in [s] as a run of consecutive units. *)
Definition occurs_in (p s : jsstring) : Prop := ∃ a b, s = a ++ p ++ b.

Definition is_scheme (scheme : jsstring) : Prop :=
  scheme = lit "http" ∨ scheme = lit "https".

(** A match of the URL pattern can begin at the head of [s]: a scheme, the
    colon and slashes, and at least one unit of the class. *)
Definition url_begins (s : jsstring) : Prop :=
  ∃ scheme c s',
    is_scheme scheme ∧ url_char c = true ∧ s = scheme ++ lit "://" ++ c :: s'.

(** The text behind a match does not continue it. *)
Definition stops (rest : jsstring) : Prop :=
  match rest with
  | [] => True
  | d :: _ => url_char d = false
  end.

(** [url_matches s us]: read from left to right, [s] falls into stretches
    where no match begins and the matches [us], each as long as the class
    allows, none overlapping another. *)
Inductive url_matches : jsstring → list jsstring → Prop :=
| um_end : url_matches [] []
| um_skip c s us :
    ¬ url_begins (c :: s) → url_matches s us → url_matches (c :: s) us
| um_url scheme w rest us :
    is_scheme scheme → w ≠ [] → Forall (λ c, url_char c = true) w →
    stops rest → url_matches rest us →
    url_matches (scheme ++ lit "://" ++ w ++ rest)
                ((scheme ++ lit "://" ++ w) :: us).

(** What the [referer] header adds to the discovered URLs. *)
Definition referer_part (headers : gmap jsstring jsstring) : list jsstring :=
  match headers !! lit "referer" with
  | Some r => if bool_decide (r = []) then [] else [r]
  | None => []
  end.

(** Stated from the words of the specification, to be compared with
    [urlRegex_at]: a match begins wherever the text reads [http://] or
    [https://] and runs up to the next white space, quote or angle
    character. *)
Definition claimed_at (s : jsstring) : option (jsstring * jsstring) :=
  if starts_with (lit "https://") s then
    let '(w, r) := span_url (drop 8 s) in Some (lit "https://" ++ w, r)
  else if starts_with (lit "http://") s then
    let '(w, r) := span_url (drop 7 s) in Some (lit "http://" ++ w, r)
  else None.

Fixpoint claimed_scan (fuel : nat) (s : jsstring) : list jsstring :=
  match fuel with
  | O => []
  | S fuel' =>
      match s with
      | [] => []
      | _ :: s' =>
          match claimed_at s with
          | Some (u, rest) => u :: claimed_scan fuel' rest
          | None => claimed_scan fuel' s'
          end
      end
  end.

(** Stated from the words of the specification, to be compared with
    [discoverUrls]: the matches in the serialized body of a structured
    value, then the value of the [referer] header when the header is
    present. *)
Definition claimed_discovery (W : World) (body : option (JsValue (number W)))
           (headers : gmap jsstring jsstring) : list jsstring :=
  match body with
  | Some b =>
      if is_object b then
        let bodyStr := JSON_stringify (JSON_number W) b in
        claimed_scan (length bodyStr) bodyStr
      else []
  | None => []
  end ++
  match headers !! lit "referer" with
  | Some referer => [referer]
  | None => []
  end.

(** Stated from the words of the specification, to be compared with
    [request_token]: the header [X-Webhook-Token] when it carries a value;
    otherwise the [Authorization] header, used only in its bearer form,
    without the leading prefix; otherwise the query parameter. *)
Definition claimed_token {number} (req : Request number) : option QueryValue :=
  match req_headers req !! lit "x-webhook-token" with
  | Some (c :: h) => Some (QStr (c :: h))
  | _ =>
      match
        match req_headers req !! lit "authorization" with
        | Some a =>
            if starts_with (lit "Bearer ") a then
              match drop 7 a with
              | [] => None
              | t => Some (QStr t)
              end
            else None
        | None => None
        end
      with
      | Some v => Some v
      | None => req_query req !! lit "token"
      end
  end.

(** A token string that token creation can produce in world [W]. *)
Definition generated (W : World) (token : jsstring) : Prop :=
  ∃ k j, token = newToken (clock W k) (random_suffix W (random W j)).

(** Every final state of [m] is related to its initial state by [R]. *)
Definition respects {S A} (R : relation S) (m : M S A) : Prop :=
  ∀ s, R s (m s).2.

(** A relation on the stores, seen next to a local array. *)
Definition beside {S L} (R : relation S) : relation (S * L) :=
  λ a b, R a.1 b.1.

(** The state after one call of the extractor: one more request sent, one
    more reading of the clock. *)
Definition after_fetch {number} (s : State number) (url : JsValue number)
           (headers : list (jsstring * jsstring)) : State number :=
  {| webhookData := webhookData s; extractedData := extractedData s;
     webhookTokens := webhookTokens s; clock_reads := S (clock_reads s);
     random_draws := random_draws s;
     outbound := outbound s ++ [{| out_url := url; out_headers := headers |}] |}.

(** The state after [extractedData.push(c)]. *)
Definition after_push {number} (s : State number)
           (c : ExtractedContent number) : State number :=
  {| webhookData := webhookData s; extractedData := extractedData s ++ [c];
     webhookTokens := webhookTokens s; clock_reads := clock_reads s;
     random_draws := random_draws s; outbound := outbound s |}.

(** The loop of the ingestion handlers as a function: the results of
    extracting [urls] one after the other from state [s], each pushed on
    [extractedData], and the state reached.  (Were the extractor to throw,
    the [catch] of the loop would record nothing.) *)
Fixpoint extract_all (W : World) (credential : option jsstring)
         (urls : list jsstring) (s : State (number W))
  : list (ExtractedContent (number W)) * State (number W) :=
  match urls with
  | [] => ([], s)
  | url :: urls' =>
      match extractDataFromUrl W (JStr url) credential s with
      | (Returned c, s1) =>
          let '(cs, s2) := extract_all W credential urls' (after_push s1 c) in
          (c :: cs, s2)
      | (Thrown _, s1) => extract_all W credential urls' s1
      end
  end.

(** A result that the terminal block can print: the content of a [text]
    result is a string. *)
Definition printable {number} (c : ExtractedContent number) : Prop :=
  match c with
  | ec_text (JStr _) _ _ => True
  | ec_text _ _ _ => False
  | _ => True
  end.

(** The requests a call of the extractor sends for [urls]. *)
Definition fetches {number} (credential : option jsstring)
           (urls : list jsstring) : list (Outbound number) :=
  (λ url, {| out_url := JStr url;
             out_headers := request_headers credential |}) <$> urls.

(** The record an ingestion handler builds for [req] in state [s], and the
    state once it is stored: two readings of the clock were taken. *)
Definition webhookPayload_of (W : World) (req : Request (number W))
           (s : State (number W)) : WebhookRecord (number W) :=
  {| wh_id := Number_toString (clock W (clock_reads s));
     wh_timestamp := clock W (S (clock_reads s));
     wh_headers := req_headers req; wh_body := req_body req;
     wh_query := req_query req; wh_method := req_method req;
     wh_url := req_url req; wh_ip := req_ip req |}.

Definition recorded (W : World) (req : Request (number W))
           (s : State (number W)) : State (number W) :=
  {| webhookData := webhookData s ++ [webhookPayload_of W req s];
     extractedData := extractedData s; webhookTokens := webhookTokens s;
     clock_reads := S (S (clock_reads s)); random_draws := random_draws s;
     outbound := outbound s |}.

(** What the extractor and the loops over it leave alone: the webhooks and
    the tokens stay, and the clock is only read. *)
Definition frame {number} (s s' : State number) : Prop :=
  webhookData s' = webhookData s ∧ webhookTokens s' = webhookTokens s ∧
  (clock_reads s ≤ clock_reads s')%nat.

(** What the token check and the token routes leave alone: the webhooks stay, the
    clock is only read, and a key of the token store was a key before or
    was created from a reading and a draw. *)
Definition keeps_webhooks (W : World) (s s' : State (number W)) : Prop :=
  webhookData s' = webhookData s ∧ (clock_reads s ≤ clock_reads s')%nat ∧
  (∀ token, is_Some (webhookTokens s' !! token) →
            is_Some (webhookTokens s !! token) ∨ generated W token).

(** How one call moves the stores: the clock is only read; the webhooks
    stay, are cleared, or grow by one record whose id renders a reading
    taken during the call; a key of the token store was a key before or
    was created from a reading and a draw. *)
Definition evolves (W : World) (s s' : State (number W)) : Prop :=
  (clock_reads s ≤ clock_reads s')%nat ∧
  (webhookData s' = webhookData s ∨ webhookData s' = [] ∨
   ∃ r k, (clock_reads s ≤ k < clock_reads s')%nat ∧
          webhookData s' = webhookData s ++ [r] ∧
          wh_id r = Number_toString (clock W k)) ∧
  (∀ token, is_Some (webhookTokens s' !! token) →
            is_Some (webhookTokens s !! token) ∨ generated W token).

(** The keys of the token store are the default token and created ones. *)
Definition tokens_have_origin (W : World) (s : State (number W)) : Prop :=
  ∀ token, is_Some (webhookTokens s !! token) →
           token = defaultToken ∨ generated W token.

(** The ids of the stored webhooks render readings of the clock taken in
    the order of the records. *)
Definition ids_follow_clock (W : World) (s : State (number W)) : Prop :=
  ∃ reads : list nat,
    StronglySorted lt reads ∧ Forall (λ k, (k < clock_reads s)%nat) reads ∧
    wh_id <$> webhookData s = (λ k, Number_toString (clock W k)) <$> reads.

(** ** Sample worlds and requests *)

(** A world over integer numbers with the clock [clk], the network [net]
    and the page parser [page]; every random draw is the same. *)
Definition mock (clk : nat → Z)
    (net : nat → JsValue Z → list (jsstring * jsstring) →
           Outcome (AxiosResponse Z))
    (page : JsValue Z → Outcome CheerioDoc) : World :=
  {| number := Z; JSON_number := Number_toString;
     number_truthy := λ z, negb (z =? 0)%Z;
     Number_toString36 := λ z, lit "0." ++ Number_toString z;
     clock := clk; random := λ _, 5%Z; network := net; cheerio := page;
     production := false |}.

(** The clock advances by a millisecond between two readings. *)
Definition ticking (k : nat) : Z := (1700000000000 + Z.of_nat k)%Z.

(** No host answers. *)
Definition refused : nat → JsValue Z → list (jsstring * jsstring) →
                     Outcome (AxiosResponse Z) :=
  λ _ _ _, Thrown {| message := lit "connect ECONNREFUSED 127.0.0.1:80" |}.

(** Every host answers with the declared type [ct] and the decoded body
    [d]. *)
Definition answering (ct : option jsstring) (d : JsValue Z)
  : nat → JsValue Z → list (jsstring * jsstring) → Outcome (AxiosResponse Z) :=
  λ _ _ _, Returned {| content_type := ct; data := d |}.

Definition no_page : JsValue Z → Outcome CheerioDoc :=
  λ _, Thrown {| message := lit "cheerio.load() expects a string" |}.

Definition sample_page : JsValue Z → Outcome CheerioDoc :=
  λ _, Returned {| title_text := lit " T "; meta_description := Some (lit "D");
                   body_text := lit "x  y"; anchor_hrefs := [lit "/a"];
                   img_srcs := [lit "/i.png"] |}.

(** Every host serves a page as [text/html]. *)
Definition html_world : World :=
  mock ticking
       (answering (Some (lit "text/html; charset=utf-8"))
                  (JStr (lit "<title> T </title>")))
       sample_page.

(** All requests fall into one millisecond and the network is down. *)
Definition frozen_world : World := mock (λ _, 1700000000000%Z) refused no_page.

Definition sample_request (h : gmap jsstring jsstring) (b : option (JsValue Z))
           (q : gmap jsstring QueryValue) : Request Z :=
  {| req_headers := h; req_body := b; req_query := q;
     req_method := lit "POST"; req_url := lit "/webhook";
     req_ip := lit "::1" |}.

(** The body of the example of the specification. *)
Definition sample_body : JsValue Z :=
  JObj [(lit "a", JStr (lit "https://x.test/1"));
        (lit "b", JStr (lit "see https://x.test/2 too"))].

(** A body whose only string ends right behind the slashes. *)
Definition bare_scheme_body : JsValue Z :=
  JObj [(lit "a", JStr (lit "http://"))].

(** A [Referer] header without a value. *)
Definition empty_referer : gmap jsstring jsstring := {[ lit "referer" := [] ]}.

(** The default token in an [Authorization] header without the prefix. *)
Definition bare_authorization : Request Z :=
  sample_request {[ lit "authorization" := defaultToken ]} (Some sample_body) ∅.

(** An empty [X-Webhook-Token] header and the default token in the query. *)
Definition empty_header_request : Request Z :=
  sample_request {[ lit "x-webhook-token" := [] ]} (Some sample_body)
                 {[ lit "token" := QStr defaultToken ]}.

(** The same body sent with and without credentials. *)
Definition with_credentials : Request Z :=
  sample_request {[ lit "x-webhook-token" := defaultToken;
                    lit "authorization" := lit "Bearer " ++ defaultToken ]}
                 (Some sample_body) {[ lit "token" := QStr defaultToken ]}.
Definition without_credentials : Request Z :=
  sample_request ∅ (Some sample_body) ∅.

(** The network is down and the clock advances. *)
Definition ticking_world : World := mock ticking refused no_page.

(** Two webhooks on the public route, one after the other. *)
Definition two_webhooks_frozen : list (Call frozen_world) :=
  [POST_webhook_public (W := frozen_world) without_credentials;
   POST_webhook_public (W := frozen_world) without_credentials].
Definition two_webhooks_ticking : list (Call ticking_world) :=
  [POST_webhook_public (W := ticking_world) without_credentials;
   POST_webhook_public (W := ticking_world) without_credentials].

(** A request to create a token without a name. *)
Definition token_request : Request Z := sample_request ∅ (Some (JObj [])) ∅.
Definition create_a_token : Call frozen_world :=
  POST_tokens (W := frozen_world) token_request.

(** A batch of one URL whose host serves the text [42] as [text/plain]. *)
Definition number_page_world : World :=
  mock ticking (answering (Some (lit "text/plain; charset=utf-8")) (JNum 42%Z))
       no_page.
Definition one_url_batch : Request Z :=
  sample_request {[ lit "x-webhook-token" := defaultToken ]}
                 (Some (JObj [(lit "urls", JArr [JStr (lit "http://h/n")])])) ∅.

(** A request whose token is not a key. *)
Definition unknown_token_request : Request Z :=
  sample_request {[ lit "x-webhook-token" := lit "guess" ]} (Some sample_body) ∅.

(** The default token in the dedicated header, with the sample body. *)
Definition authorized_request : Request Z :=
  sample_request {[ lit "x-webhook-token" := defaultToken ]}
                 (Some sample_body) ∅.

(** A token's metadata tells a used token from an unused one in two ways
    that agree: no last use, and a count of zero. *)
Definition tokens_consistent {number} (s : State number) : Prop :=
  ∀ token d, webhookTokens s !! token = Some d →
             lastUsed d = None ↔ usageCount d = 0.

(** A request that carries only [token] in the dedicated header. *)
Definition request_with (token : jsstring) : Request Z :=
  sample_request {[ lit "x-webhook-token" := token ]} None ∅.

(** The extraction results stored before are still there, in place, and
    others may have been appended. *)
Definition grows {number} (s s' : State number) : Prop :=
  extractedData s `prefix_of` extractedData s'.

(** The answers of the routes: 200 with [success: true], or one of the
    error statuses with [success: false]. *)
Definition envelope {number} (answer : Response number) : Prop :=
  (status answer = 200%Z ∧ success (json answer) = true) ∨
  (status answer ∈ [400; 401; 404; 500]%Z ∧ success (json answer) = false).

Definition clearing : Call frozen_world := DELETE_extracted (W := frozen_world).
Definition authorized_webhook : Call frozen_world :=
  POST_webhook (W := frozen_world) authorized_request.

(** A request to extract one URL, and one without a URL. *)
Definition extract_request : Request Z :=
  sample_request {[ lit "x-webhook-token" := defaultToken ]}
                 (Some (JObj [(lit "url", JStr (lit "http://h/n"))])) ∅.
Definition extract_nothing : Request Z :=
  sample_request {[ lit "x-webhook-token" := defaultToken ]}
                 (Some (JObj [(lit "url", JStr [])])) ∅.

(** A batch request whose [urls] is a string, not a list. *)
Definition urls_not_a_list : Request Z :=
  sample_request {[ lit "x-webhook-token" := defaultToken ]}
                 (Some (JObj [(lit "urls", JStr (lit "http://h/n"))])) ∅.

(** A batch of two URLs. *)
Definition two_url_batch : Request Z :=
  sample_request {[ lit "x-webhook-token" := defaultToken ]}
                 (Some (JObj [(lit "urls", JArr (JStr <$> [lit "http://h/1";
                                                          lit "http://h/2"]))]))
                 ∅.

(** Nothing in the list has the id [webhookId]. *)
Definition none_has_id {number} (webhookId : jsstring)
           (l : list (WebhookRecord number)) : Prop :=
  Forall (λ w, wh_id w ≠ webhookId) l.

(** Every white-space unit of [s] is a plain space, and no two white-space
    units stand side by side. *)
Definition single_spaced (s : jsstring) : Prop :=
  Forall (λ c, is_space c = true → c = 32) s ∧
  ∀ a x y b, s = a ++ x :: y :: b → is_space x = true → is_space y = false.

(** [s] neither begins nor ends with white space. *)
Definition trimmed (s : jsstring) : Prop :=
  (∀ c, head s = Some c → is_space c = false) ∧
  (∀ c, last s = Some c → is_space c = false).

(** [t] is [s] without white space at its two ends. *)
Definition stripped (s t : jsstring) : Prop :=
  trimmed t ∧
  ∃ a b, s = a ++ t ++ b ∧ Forall (λ c, is_space c = true) a ∧
         Forall (λ c, is_space c = true) b.

(** A token given twice in the query string arrives as an array. *)
Definition doubled_token_request : Request Z :=
  sample_request ∅ (Some sample_body)
                 {[ lit "token" := QArr [QStr defaultToken; QStr defaultToken] ]}.

(** The stores of the first version that correspond to [s]. *)
Definition legacy_of (W : World) (s : State (number W)) : Legacy.state W :=
  {| Legacy.webhookData := webhookData s;
     Legacy.clock_reads := clock_reads s |}.

(** Three accepted webhooks in a row. *)
Definition three_authorized : list (Request Z) :=
  [authorized_request; authorized_request; authorized_request].

(** A batch whose first item is an object with a property [toString]. *)
Definition unprintable_batch : Request Z :=
  sample_request {[ lit "x-webhook-token" := defaultToken ]}
    (Some (JObj [(lit "urls",
                  JArr [JObj [(lit "toString", JNum 1%Z)];
                        JStr (lit "http://h/n")])])) ∅.

(** An empty [X-Webhook-Token] header next to the default token in bearer
    form. *)
Definition empty_header_bearer_request : Request Z :=
  sample_request {[ lit "x-webhook-token" := [];
                    lit "authorization" := lit "Bearer " ++ defaultToken ]}
                 (Some sample_body) ∅.

(** Stated from the words of the specification, to be compared with the
    result of [extractDataFromUrl]: the variant that the declared type of a
    fetched response decides. *)
Definition claimed_variant (declared : jsstring) : Kind :=
  if includes (lit "application/json") declared then kind_json
  else if includes (lit "text/html") declared then kind_html
  else if includes (lit "text/plain") declared
          || includes (lit "text/markdown") declared then kind_text
  else kind_other.

(** Every host answers [42] and declares it [text/html]; the transport
    decodes the body to a number, which the page parser refuses. *)
Definition number_html_world : World :=
  mock ticking (answering (Some (lit "text/html")) (JNum 42%Z)) no_page.

(** The host answers for [http://h/2] only, with a plain text. *)
Definition second_answers
  : nat → JsValue Z → list (jsstring * jsstring) → Outcome (AxiosResponse Z) :=
  λ _ url _,
    match url with
    | JStr u =>
        if bool_decide (u = lit "http://h/2") then
          Returned {| content_type := Some (lit "text/plain");
                      data := JStr (lit "hello") |}
        else Thrown {| message := lit "connect ECONNREFUSED 127.0.0.1:80" |}
    | _ => Thrown {| message := lit "connect ECONNREFUSED 127.0.0.1:80" |}
    end.
Definition mixed_world : World := mock ticking second_answers no_page.

(** * Properties *)

(** ** Strings *)

Lemma starts_with_spec (p s : jsstring) :
  starts_with p s = true ↔ ∃ r, s = p ++ r.
Proof.
  revert s. induction p as [|a p IH]; intros s; simpl.
  - split; [eauto|done].
  - destruct s as [|b s].
    + split; [done|]. intros [r Hr]. discriminate.
    + rewrite andb_true_iff, N.eqb_eq, IH. split.
      * intros [-> [r ->]]. eauto.
      * intros [r [= -> ->]]. eauto.
Qed.

Lemma starts_with_app (p r : jsstring) : starts_with p (p ++ r) = true.
Proof. apply starts_with_spec. eauto. Qed.

Lemma starts_with_drop (p s : jsstring) :
  starts_with p s = true → s = p ++ drop (length p) s.
Proof.
  intros [r ->]%starts_with_spec. by rewrite drop_app_length.
Qed.

Lemma strip_prefix_spec (p s r : jsstring) :
  strip_prefix p s = Some r ↔ s = p ++ r.
Proof.
  unfold strip_prefix. destruct (starts_with p s) eqn:E.
  - apply starts_with_drop in E. split.
    + intros [= <-]. done.
    + intros ->. by rewrite drop_app_length.
  - split; [done|]. intros ->. by rewrite starts_with_app in E.
Qed.

Lemma strip_prefix_None (p s : jsstring) :
  strip_prefix p s = None ↔ ¬ ∃ r, s = p ++ r.
Proof.
  unfold strip_prefix. rewrite <-starts_with_spec.
  destruct (starts_with p s); split; try done; intros []; done.
Qed.

Lemma includes_here (p s : jsstring) :
  starts_with p s = true → includes p s = true.
Proof. destruct s; cbn [includes]; intros ->; done. Qed.

Lemma includes_spec (p s : jsstring) : includes p s = true ↔ occurs_in p s.
Proof.
  split.
  - induction s as [|c s IH].
    + simpl. rewrite orb_false_r. intros [r ->]%starts_with_spec.
      by exists [], r.
    + cbn [includes]. intros [H|H]%orb_true_iff.
      * apply starts_with_spec in H as [r ->]. by exists [], r.
      * destruct (IH H) as (a & b & ->). by exists (c :: a), b.
  - intros (a & b & ->). induction a as [|c a IH].
    + apply includes_here. cbn [app]. apply starts_with_app.
    + cbn [app includes]. rewrite IH. apply orb_true_r.
Qed.

Lemma includes_false (p s : jsstring) :
  includes p s = false ↔ ¬ occurs_in p s.
Proof.
  rewrite <-includes_spec. destruct (includes p s); split; done.
Qed.

Lemma replace_first_here (p s : jsstring) :
  starts_with p s = true → replace_first p s = drop (length p) s.
Proof. destruct s; cbn [replace_first]; intros ->; done. Qed.

Lemma replace_first_prefix (p t : jsstring) : replace_first p (p ++ t) = t.
Proof.
  rewrite replace_first_here by apply starts_with_app.
  apply drop_app_length.
Qed.

Lemma replace_first_absent (p s : jsstring) :
  includes p s = false → replace_first p s = s.
Proof.
  induction s as [|c s IH]; cbn [includes replace_first].
  - intros [H _]%orb_false_iff. by rewrite H.
  - intros [H1 H2]%orb_false_iff. rewrite H1. f_equal. auto.
Qed.

(** [replace_first] removes the leftmost occurrence. *)
Lemma replace_first_leftmost (p pre post : jsstring) :
  (∀ i, (i < length pre)%nat → starts_with p (drop i (pre ++ p ++ post)) = false) →
  replace_first p (pre ++ p ++ post) = pre ++ post.
Proof.
  induction pre as [|c pre IH]; intros Hfirst.
  - cbn [app]. apply replace_first_prefix.
  - pose proof (Hfirst 0%nat ltac:(simpl; lia)) as H0. simpl in H0.
    cbn [app replace_first]. rewrite H0. f_equal. apply IH.
    intros i Hi. apply (Hfirst (S i)). simpl; lia.
Qed.

(** ** The token check *)

Lemma Map_get_Some (W : World) (tokens : gmap jsstring (TokenData (number W)))
      (token : option QueryValue) (t : jsstring) (d : TokenData (number W)) :
  Map_get W tokens token = Some (t, d) ↔
  token = Some (QStr t) ∧ tokens !! t = Some d.
Proof.
  unfold Map_get. destruct token as [[u| |]|]; try (split; [done|intros [[=] _]]).
  destruct (tokens !! u) eqn:E; simpl; split.
  - intros [= -> ->]. done.
  - intros [[= ->] H]. rewrite E in H. by injection H as ->.
  - done.
  - intros [[= ->] H]. congruence.
Qed.

Lemma Map_get_None (W : World) (tokens : gmap jsstring (TokenData (number W)))
      (token : option QueryValue) :
  Map_get W tokens token = None ↔
  ∀ t, token = Some (QStr t) → tokens !! t = None.
Proof.
  unfold Map_get. destruct token as [[u| |]|]; try (split; [done|done]).
  destruct (tokens !! u) eqn:E; simpl; split; try done.
  - intros H. specialize (H u eq_refl). congruence.
  - intros _ t [= <-]. done.
Qed.

Lemma q_truthy_QStr (t : jsstring) : q_truthy (Some (QStr t)) = true ↔ t ≠ [].
Proof.
  simpl. rewrite negb_true_iff, bool_decide_eq_false. done.
Qed.

(** What the middleware does, case by case. *)
Lemma validateWebhookToken_cases (W : World) (req : Request (number W))
      (s : State (number W)) :
  match validateWebhookToken W req s with
  | (Returned (inr t), s') =>
      request_token W req = Some (QStr t) ∧ t ≠ [] ∧
      ∃ d, webhookTokens s !! t = Some d ∧
           s' = {| webhookData := webhookData s;
                   extractedData := extractedData s;
                   webhookTokens :=
                     <[t := {| name := name d; created := created d;
                               lastUsed := Some (clock W (clock_reads s));
                               usageCount := usageCount d + 1 |}]>
                       (webhookTokens s);
                   clock_reads := S (clock_reads s);
                   random_draws := random_draws s;
                   outbound := outbound s |}
  | (Returned (inl answer), s') =>
      s' = s ∧
      ((q_truthy (request_token W req) = false ∧ answer = token_required W) ∨
       (q_truthy (request_token W req) = true ∧
        (∀ t, request_token W req = Some (QStr t) → webhookTokens s !! t = None) ∧
        answer = token_invalid W))
  | (Thrown _, _) => False
  end.
Proof.
  unfold validateWebhookToken.
  destruct (q_truthy (request_token W req)) eqn:Htruthy; simpl.
  - unfold bind, get_webhookTokens, ret.
    destruct (Map_get W (webhookTokens s) (request_token W req))
      as [[t d]|] eqn:Hget; simpl.
    + apply Map_get_Some in Hget as [Htok Hd].
      rewrite Htok in Htruthy. apply q_truthy_QStr in Htruthy. eauto.
    + rewrite Map_get_None in Hget. auto.
  - unfold ret. auto.
Qed.

Lemma validateWebhookToken_succeeds (W : World) (req : Request (number W))
      (s : State (number W)) :
  (∃ t s', validateWebhookToken W req s = (Returned (inr t), s')) ↔
  (∃ t, request_token W req = Some (QStr t) ∧ t ≠ [] ∧
        is_Some (webhookTokens s !! t)).
Proof.
  pose proof (validateWebhookToken_cases W req s) as Hcases. split.
  - intros (t & s' & Hrun). rewrite Hrun in Hcases.
    destruct Hcases as (Htok & Hne & d & Hd & _). eauto.
  - intros (t & Htok & Hne & d & Hd).
    destruct (validateWebhookToken W req s) as [[[answer|t']|e] s'];
      [|by eauto|done].
    destruct Hcases as (_ & [[Hfalse _]|[_ [Hnone _]]]).
    + rewrite Htok in Hfalse. apply q_truthy_QStr in Hne. congruence.
    + rewrite (Hnone t Htok) in Hd. done.
Qed.

(** C1.  The middleware lets a request through exactly when the token taken from
    it is a string that is not empty and is a key of the token store.  On
    success the entry of that token has its usage counter raised by one and
    its last-used time set to the current reading of the clock, its other
    fields and every other entry being kept.  On failure the answer is a
    401 whose message is [Webhook token required] when the token is
    missing or empty and [Invalid webhook token] when it is not a key, and
    the state is the one before.  The middleware never throws. *)
Theorem validateWebhookToken_correct (W : World) (req : Request (number W))
        (s : State (number W)) :
  ((∃ t s', validateWebhookToken W req s = (Returned (inr t), s')) ↔
   (∃ t, request_token W req = Some (QStr t) ∧ t ≠ [] ∧
         is_Some (webhookTokens s !! t))) ∧
  (∀ t s', validateWebhookToken W req s = (Returned (inr t), s') →
     request_token W req = Some (QStr t) ∧
     ∃ d d', webhookTokens s !! t = Some d ∧ webhookTokens s' !! t = Some d' ∧
       usageCount d' = usageCount d + 1 ∧
       lastUsed d' = Some (clock W (clock_reads s)) ∧
       name d' = name d ∧ created d' = created d ∧
       (∀ t', t' ≠ t → webhookTokens s' !! t' = webhookTokens s !! t') ∧
       webhookData s' = webhookData s ∧ extractedData s' = extractedData s) ∧
  (∀ answer s', validateWebhookToken W req s = (Returned (inl answer), s') →
     s' = s ∧ status answer = 401%Z ∧ success (json answer) = false ∧
     ((q_truthy (request_token W req) = false ∧
       json answer = res_auth_failure (lit "Webhook token required")
         (lit "Add X-Webhook-Token header or ?token=your-token query parameter")) ∨
      (q_truthy (request_token W req) = true ∧
       (∀ t, request_token W req = Some (QStr t) →
             webhookTokens s !! t = None) ∧
       json answer = res_auth_failure (lit "Invalid webhook token")
         (lit "Use a valid token or create a new one")))) ∧
  (∀ e s', validateWebhookToken W req s ≠ (Thrown e, s')).
Proof.
  pose proof (validateWebhookToken_cases W req s) as Hcases.
  split; [|split; [|split]].
  - apply validateWebhookToken_succeeds.
  - intros t s' Hrun. rewrite Hrun in Hcases.
    destruct Hcases as (Htok & Hne & d & Hd & ->). split; [done|].
    eexists d, _. simpl. rewrite lookup_insert_eq.
    repeat split; try done.
    intros t' Hneq. by rewrite lookup_insert_ne.
  - intros answer s' Hrun. rewrite Hrun in Hcases.
    destruct Hcases as (-> & [[Hfalse ->]|[Htrue [Hnone ->]]]);
      repeat split; auto.
  - intros e s' Hrun. by rewrite Hrun in Hcases.
Qed.

Lemma validateWebhookToken_correct_witness :
  ∃ t s', validateWebhookToken frozen_world empty_header_request
            (initial_state frozen_world) = (Returned (inr t), s').
Proof.
  apply (validateWebhookToken_correct frozen_world empty_header_request
           (initial_state frozen_world)).
  exists defaultToken. split; [reflexivity|]. split.
  - vm_compute. discriminate.
  - vm_compute. eauto.
Defined.

(** ** The token taken from a request *)

(** C9 (amended).  The token is taken from the first of three sources that
    yields a string that is not empty: the header [X-Webhook-Token]; the
    header [Authorization] with the leftmost occurrence of the text
    [Bearer ] removed, wherever it stands (a value that begins with it
    loses that prefix, a value without it is used as it is); the query
    parameter [token]. *)
Theorem request_token_priority (W : World) (req : Request (number W)) :
  let x := req_headers req !! lit "x-webhook-token" in
  let a := req_headers req !! lit "authorization" in
  let q := req_query req !! lit "token" in
  (∀ h, x = Some h → h ≠ [] → request_token W req = Some (QStr h)) ∧
  ((x = None ∨ x = Some []) →
     (∀ v, a = Some v → replace_first (lit "Bearer ") v ≠ [] →
           request_token W req = Some (QStr (replace_first (lit "Bearer ") v))) ∧
     ((a = None ∨ ∃ v, a = Some v ∧ replace_first (lit "Bearer ") v = []) →
      request_token W req = q)) ∧
  (∀ t, replace_first (lit "Bearer ") (lit "Bearer " ++ t) = t) ∧
  (∀ v, ¬ occurs_in (lit "Bearer ") v → replace_first (lit "Bearer ") v = v) ∧
  (∀ pre post,
     (∀ i, (i < length pre)%nat →
           starts_with (lit "Bearer ") (drop i (pre ++ lit "Bearer " ++ post))
           = false) →
     replace_first (lit "Bearer ") (pre ++ lit "Bearer " ++ post) = pre ++ post).
Proof.
  intros x a q. unfold request_token. fold x a q.
  split; [|split; [|split; [|split]]].
  - intros h -> Hne. unfold js_or. simpl.
    apply q_truthy_QStr in Hne. simpl in Hne. by rewrite Hne.
  - intros Hx. assert (js_or (QStr <$> x) = λ b, b) as ->.
    { by destruct Hx as [-> | ->]. }
    split.
    + intros v -> Hne. unfold js_or. simpl.
      apply q_truthy_QStr in Hne. simpl in Hne. by rewrite Hne.
    + intros [-> | (v & -> & Hv)]; [done|].
      unfold js_or. simpl. by rewrite Hv.
  - apply replace_first_prefix.
  - intros v Hv. by apply replace_first_absent, includes_false.
  - apply replace_first_leftmost.
Qed.

Lemma request_token_priority_witness :
  request_token frozen_world bare_authorization = Some (QStr defaultToken).
Proof.
  destruct (request_token_priority frozen_world bare_authorization)
    as (_ & Hauth & _).
  destruct Hauth as [Hbearer _]; [by left|].
  apply (Hbearer defaultToken); [reflexivity|]. vm_compute. discriminate.
Defined.

(** An [Authorization] header that is not in bearer form is used all the
    same: the default token alone in that header is accepted, where the
    claim as stated takes no token from it. *)
Lemma request_token_priority_counterexample :
  request_token frozen_world bare_authorization = Some (QStr defaultToken) ∧
  claimed_token bare_authorization = None ∧
  ∃ s', validateWebhookToken frozen_world bare_authorization
          (initial_state frozen_world) = (Returned (inr defaultToken), s').
Proof. split; [|split]; [reflexivity..|]. eexists. reflexivity. Qed.

(** C10.  A source that is present with the empty string is passed over and
    the next one in the order is consulted.  After an empty
    [X-Webhook-Token] the token is the [Authorization] value (less
    [Bearer ]) when that is not empty, and the [token] parameter when the
    header is absent or empty too; an empty [Authorization] leaves a header
    [X-Webhook-Token] that is not empty in force and falls through to the
    parameter otherwise.  So an empty [X-Webhook-Token] with a valid
    [token] parameter, or with a valid bearer token, is accepted.  The
    empty string never opens the gate, and when every source is absent or
    empty the answer is [Webhook token required] with the state kept. *)
Theorem empty_sources_skipped (W : World) (req : Request (number W))
        (s : State (number W)) :
  let x := req_headers req !! lit "x-webhook-token" in
  let a := req_headers req !! lit "authorization" in
  let q := req_query req !! lit "token" in
  (x = Some [] →
   (∀ v, a = Some v → replace_first (lit "Bearer ") v ≠ [] →
         request_token W req = Some (QStr (replace_first (lit "Bearer ") v))) ∧
   ((a = None ∨ ∃ v, a = Some v ∧ replace_first (lit "Bearer ") v = []) →
    request_token W req = q)) ∧
  (a = Some [] →
   (∀ h, x = Some h → h ≠ [] → request_token W req = Some (QStr h)) ∧
   ((x = None ∨ x = Some []) → request_token W req = q)) ∧
  (∀ t, x = Some [] → a = None → q = Some (QStr t) → t ≠ [] →
        is_Some (webhookTokens s !! t) →
        ∃ s', validateWebhookToken W req s = (Returned (inr t), s')) ∧
  (∀ t, x = Some [] → a = Some (lit "Bearer " ++ t) → t ≠ [] →
        is_Some (webhookTokens s !! t) →
        ∃ s', validateWebhookToken W req s = (Returned (inr t), s')) ∧
  (∀ t s', validateWebhookToken W req s = (Returned (inr t), s') → t ≠ []) ∧
  ((x = None ∨ x = Some []) → (a = None ∨ a = Some []) →
   (q = None ∨ q = Some (QStr [])) →
   validateWebhookToken W req s = (Returned (inl (token_required W)), s)).
Proof.
  intros x a q.
  assert (request_token W req
          = js_or (QStr <$> x)
              (js_or (QStr <$> (replace_first (lit "Bearer ") <$> a)) q))
    as Htoken by done.
  pose proof (validateWebhookToken_cases W req s) as Hcases.
  assert (∀ t, request_token W req = Some (QStr t) → t ≠ [] →
               is_Some (webhookTokens s !! t) →
               ∃ s', validateWebhookToken W req s = (Returned (inr t), s'))
    as Haccepted.
  { intros t Ht Hne Hkey.
    destruct (proj2 (validateWebhookToken_succeeds W req s))
      as (t0 & s' & Hrun); [by eauto|].
    rewrite Hrun in Hcases. destruct Hcases as (Ht0 & _).
    rewrite Ht in Ht0. injection Ht0 as <-. eauto. }
  assert (∀ v, v ≠ [] → js_or (Some (QStr v)) = λ _, Some (QStr v))
    as Hfirst.
  { intros v Hv%q_truthy_QStr. unfold js_or. by rewrite Hv. }
  split; [|split; [|split; [|split; [|split]]]].
  - intros Hx. rewrite Htoken, Hx. split.
    + intros v -> Hne. change (js_or (QStr <$> Some []) ?b) with b.
      simpl. by rewrite (Hfirst _ Hne).
    + intros [-> | (v & -> & Hv)]; [done|].
      unfold js_or. simpl. by rewrite Hv.
  - intros Ha. rewrite Htoken, Ha. split.
    + intros h -> Hne. simpl. by rewrite (Hfirst _ Hne).
    + by intros [-> | ->].
  - intros t Hx Ha Hq Hne Hkey. apply Haccepted; [|done..].
    rewrite Htoken, Hx, Ha, Hq. by destruct t.
  - intros t Hx Ha Hne Hkey. apply Haccepted; [|done..].
    rewrite Htoken, Hx, Ha.
    change (js_or (QStr <$> Some []) ?b) with b.
    change (replace_first (lit "Bearer ") <$> Some (lit "Bearer " ++ t))
      with (Some (replace_first (lit "Bearer ") (lit "Bearer " ++ t))).
    rewrite replace_first_prefix.
    change (QStr <$> Some t) with (Some (QStr t)). by rewrite (Hfirst _ Hne).
  - intros t s' Hrun. rewrite Hrun in Hcases. by destruct Hcases as (_ & ? & _).
  - intros Hx Ha Hq.
    assert (q_truthy (request_token W req) = false) as Hfalse.
    { rewrite Htoken.
      destruct Hx as [-> | ->], Ha as [-> | ->], Hq as [-> | ->]; done. }
    unfold validateWebhookToken. by rewrite Hfalse.
Qed.

Lemma empty_sources_skipped_witness :
  ∃ s', validateWebhookToken frozen_world empty_header_bearer_request
          (initial_state frozen_world) = (Returned (inr defaultToken), s').
Proof.
  destruct (empty_sources_skipped frozen_world empty_header_bearer_request
              (initial_state frozen_world)) as (_ & _ & _ & Hexample & _).
  apply Hexample; [reflexivity..| |].
  - vm_compute. discriminate.
  - vm_compute. eauto.
Defined.

(** ** The content extractor *)

(** The extractor on a URL that a template can print: whatever the
    transport and the page parser do, it returns, having sent one request
    and read the clock once. *)
Lemma extractDataFromUrl_run (W : World) (url : JsValue (number W))
      (token : option jsstring) (s : State (number W)) :
  ToString_throws url = false →
  let now := clock W (clock_reads s) in
  let headers := request_headers token in
  ∃ c, extractDataFromUrl W url token s
       = (Returned c, after_fetch s url headers) ∧
    match network W (length (outbound s)) url headers with
    | Thrown e => c = ec_error (message e) url now
    | Returned response =>
        let contentType := default [] (content_type response) in
        if includes (lit "application/json") contentType then
          c = ec_json (data response) url now
        else if includes (lit "text/html") contentType then
          match cheerio W (data response) with
          | Returned doc =>
              c = ec_html (trim (title_text doc))
                          (default [] (meta_description doc))
                          (trim (collapse_spaces (body_text doc)))
                          (anchor_hrefs doc) (img_srcs doc) url now
          | Thrown e => c = ec_error (message e) url now
          end
        else if includes (lit "text/plain") contentType
                || includes (lit "text/markdown") contentType then
          c = ec_text (data response) url now
        else c = ec_other contentType (data response) url now
    end.
Proof.
  intros Hprint now headers.
  unfold extractDataFromUrl, try_catch, bind, console_template, axios_get.
  rewrite Hprint. cbn [ret]. fold headers.
  destruct (network W (length (outbound s)) url headers) as [response|e];
    cbn [ret]; [|eexists; split; reflexivity].
  destruct (includes (lit "application/json") _);
    [eexists; split; reflexivity|].
  destruct (includes (lit "text/html") _).
  - unfold cheerio_load. destruct (cheerio W (data response)) as [doc|e];
      eexists; split; reflexivity.
  - destruct (includes (lit "text/plain") _ || includes (lit "text/markdown") _);
      eexists; split; reflexivity.
Qed.

(** C3 (amended).  For a fetch that returned, the variant of the result is
    decided by the declared content type, by occurrence of a text in it, in
    this order: [application/json] gives the [json] variant with the
    decoded body as it is; otherwise [text/html] gives the [html] variant
    with the fields read off the page when the page parser returns, and
    the [error] variant with the parser's message when it throws;
    otherwise [text/plain] or [text/markdown] gives the [text] variant;
    otherwise, and when the header is absent, the [other] variant with the
    declared type.  The body of a [text] or [other] result is
    [response.data], the body as the transport decoded it (a number for
    the body [42]), not the text received.  The result is one constructor
    of [ExtractedContent], so one variant and no other is populated. *)
Theorem classification_by_content_type (W : World) (url : JsValue (number W))
        (token : option jsstring) (s : State (number W))
        (response : AxiosResponse (number W)) :
  ToString_throws url = false →
  network W (length (outbound s)) url (request_headers token)
  = Returned response →
  let declared := default [] (content_type response) in
  let now := clock W (clock_reads s) in
  let result := (extractDataFromUrl W url token s).1 in
  (occurs_in (lit "application/json") declared →
   result = Returned (ec_json (data response) url now)) ∧
  (¬ occurs_in (lit "application/json") declared →
   occurs_in (lit "text/html") declared →
   match cheerio W (data response) with
   | Returned doc =>
       result = Returned (ec_html (trim (title_text doc))
                                  (default [] (meta_description doc))
                                  (trim (collapse_spaces (body_text doc)))
                                  (anchor_hrefs doc) (img_srcs doc) url now)
   | Thrown e => result = Returned (ec_error (message e) url now)
   end) ∧
  (¬ occurs_in (lit "application/json") declared →
   ¬ occurs_in (lit "text/html") declared →
   occurs_in (lit "text/plain") declared ∨
   occurs_in (lit "text/markdown") declared →
   result = Returned (ec_text (data response) url now)) ∧
  (¬ occurs_in (lit "application/json") declared →
   ¬ occurs_in (lit "text/html") declared →
   ¬ occurs_in (lit "text/plain") declared →
   ¬ occurs_in (lit "text/markdown") declared →
   result = Returned (ec_other declared (data response) url now)) ∧
  (content_type response = None →
   result = Returned (ec_other [] (data response) url now)).
Proof.
  intros Hprint Hfetch declared now result.
  destruct (extractDataFromUrl_run W url token s Hprint) as (c & Hrun & Hc).
  rewrite Hfetch in Hc. cbn zeta in Hc. fold declared now in Hc.
  assert (result = Returned c) as -> by (unfold result; by rewrite Hrun).
  assert (∀ p, includes p declared = true ↔ occurs_in p declared) as Hin
      by (intros; apply includes_spec).
  assert (∀ p, includes p declared = false ↔ ¬ occurs_in p declared) as Hout
      by (intros; apply includes_false).
  split; [|split; [|split; [|split]]].
  - intros Hjson%Hin. rewrite Hjson in Hc. cbv iota in Hc. by rewrite Hc.
  - intros Hjson%Hout Hhtml%Hin.
    rewrite Hjson, Hhtml in Hc. cbv iota in Hc.
    destruct (cheerio W (data response)); by rewrite Hc.
  - intros Hjson%Hout Hhtml%Hout Htext. rewrite Hjson, Hhtml in Hc.
    assert (includes (lit "text/plain") declared
            || includes (lit "text/markdown") declared = true) as Hor.
    { apply orb_true_iff. destruct Htext as [H%Hin|H%Hin]; auto. }
    rewrite Hor in Hc. cbv iota in Hc. by rewrite Hc.
  - intros Hjson%Hout Hhtml%Hout Hplain%Hout Hmd%Hout.
    rewrite Hjson, Hhtml, Hplain, Hmd in Hc. cbv iota in Hc. by rewrite Hc.
  - intros Habsent. unfold declared in Hc. rewrite Habsent in Hc.
    simpl in Hc. by rewrite Hc.
Qed.

Lemma classification_by_content_type_witness :
  (extractDataFromUrl html_world (JStr (lit "https://x.test/1")) None
     (initial_state html_world)).1
  = Returned (ec_html (lit "T") (lit "D") (lit "x y") [lit "/a"] [lit "/i.png"]
                      (JStr (lit "https://x.test/1")) 1700000000001%Z).
Proof.
  destruct (classification_by_content_type html_world
              (JStr (lit "https://x.test/1")) None (initial_state html_world)
              {| content_type := Some (lit "text/html; charset=utf-8");
                 data := JStr (lit "<title> T </title>") |}
              eq_refl eq_refl) as (_ & Hhtml & _).
  apply (Hhtml ltac:(apply includes_false; reflexivity)
               ltac:(apply includes_spec; reflexivity)).
Defined.

(** A page declared [text/html] whose body is [42] reaches the page parser
    as a number and is refused: the result is the [error] variant, where
    the claim as stated gives the [html] variant.  The same body declared
    [text/plain] gives a [text] result whose content is the number, which
    is no text, where the claim as stated gives the body as it was
    received. *)
Lemma classification_counterexample :
  let url := JStr (lit "http://h/n") in
  (network number_html_world 0 url (request_headers None)
   = Returned {| content_type := Some (lit "text/html");
                 data := JNum 42%Z |} ∧
   claimed_variant (lit "text/html") = kind_html ∧
   ∃ c, (extractDataFromUrl number_html_world url None
           (initial_state number_html_world)).1 = Returned c ∧
        c = ec_error (lit "cheerio.load() expects a string") url
                     1700000000001%Z ∧
        ec_type c ≠ claimed_variant (lit "text/html")) ∧
  (network number_page_world 0 url (request_headers None)
   = Returned {| content_type := Some (lit "text/plain; charset=utf-8");
                 data := JNum 42%Z |} ∧
   (extractDataFromUrl number_page_world url None
      (initial_state number_page_world)).1
   = Returned (ec_text (JNum 42%Z) url 1700000000001%Z) ∧
   ∀ received : jsstring, @JNum Z 42%Z ≠ JStr received).
Proof.
  split; [|split; [reflexivity|]; split; [by vm_compute|]].
  - split; [reflexivity|]. split; [reflexivity|].
    eexists. split; [by vm_compute|]. split; [reflexivity|]. discriminate.
  - intros received. discriminate.
Qed.

(** ** The loop of the ingestion handlers *)

(** Printing a result changes nothing; it returns or throws. *)
Lemma display_state (W : World) {S : Type} (url : JsValue (number W))
      (c : ExtractedContent (number W)) (s : S) :
  (display W url c s).2 = s.
Proof.
  unfold display, console_template, bind.
  destruct (ToString_throws url); [done|]. cbn [ret].
  destruct c as [| |[]| |]; done.
Qed.

Lemma ingest_round_run (W : World) (credential : option jsstring)
      (url : jsstring) (s : State (number W))
      (l : list (ExtractedContent (number W))) :
  ∃ c, extractDataFromUrl W (JStr url) credential s
       = (Returned c, after_fetch s (JStr url) (request_headers credential)) ∧
       ingest_round W credential url (s, l)
       = (Returned tt,
          (after_push (after_fetch s (JStr url) (request_headers credential)) c,
           l ++ [c])).
Proof.
  destruct (extractDataFromUrl_run W (JStr url) credential s eq_refl)
    as (c & Hrun & _).
  exists c. split; [done|].
  unfold ingest_round, try_catch, bind, on_stores. cbn [fst snd].
  rewrite Hrun. unfold local_push, extractedData_push. cbn [fst snd].
  pose proof (display_state W (JStr url) c
                (after_push (after_fetch s (JStr url)
                                         (request_headers credential)) c,
                 l ++ [c])) as Hshow.
  unfold after_push at 1 in Hshow. cbn [extractedData] in *.
  fold (after_push (after_fetch s (JStr url) (request_headers credential)) c).
  destruct (display W (JStr url) c _) as [[[]|e] sl]; simpl in Hshow;
    by rewrite Hshow.
Qed.

Lemma ingest_loop_run (W : World) (credential : option jsstring)
      (urls : list jsstring) (s : State (number W))
      (l : list (ExtractedContent (number W))) :
  for_of urls (ingest_round W credential) (s, l)
  = (Returned tt, ((extract_all W credential urls s).2,
                   l ++ (extract_all W credential urls s).1)).
Proof.
  revert s l. induction urls as [|url urls IH]; intros s l.
  - simpl. by rewrite app_nil_r.
  - destruct (ingest_round_run W credential url s l) as (c & Hext & Hround).
    cbn [for_of extract_all]. unfold bind at 1. rewrite Hround, Hext, IH.
    destruct (extract_all W credential urls _) as [cs s2]. simpl.
    by rewrite <-app_assoc.
Qed.

(** What the loop leaves behind. *)
Lemma extract_all_spec (W : World) (credential : option jsstring)
      (urls : list jsstring) (s : State (number W)) :
  let cs := (extract_all W credential urls s).1 in
  let s' := (extract_all W credential urls s).2 in
  extractedData s' = extractedData s ++ cs ∧
  outbound s' = outbound s ++ fetches credential urls ∧
  webhookData s' = webhookData s ∧
  webhookTokens s' = webhookTokens s ∧
  clock_reads s' = (clock_reads s + length urls)%nat ∧
  random_draws s' = random_draws s ∧
  Forall2 (λ url c,
             ∃ si, extractDataFromUrl W (JStr url) credential si
                   = (Returned c,
                      after_fetch si (JStr url) (request_headers credential)))
          urls cs.
Proof.
  revert s. induction urls as [|url urls IH]; intros s.
  - simpl. rewrite !app_nil_r. repeat split; auto.
  - destruct (extractDataFromUrl_run W (JStr url) credential s eq_refl)
      as (c & Hrun & _).
    cbn [extract_all]. rewrite Hrun.
    specialize (IH (after_push (after_fetch s (JStr url)
                                            (request_headers credential)) c)).
    destruct (extract_all W credential urls _) as [cs s2].
    cbn [fst snd] in *.
    destruct IH as (Hdata & Hout & Hwh & Htok & Hclock & Hrand & Hall).
    cbn [after_push after_fetch extractedData outbound webhookData
         webhookTokens clock_reads random_draws] in *.
    rewrite Hdata, Hout, <-!app_assoc. cbn [fetches fmap list_fmap app length].
    repeat split; auto; [lia|].
    constructor; eauto.
Qed.

(** The ingestion handler, run to its end: it always answers 200. *)
Lemma ingest_run (W : World) (credential : option jsstring) (msg : jsstring)
      (req : Request (number W)) (s : State (number W)) :
  let urls := discoverUrls W (req_body req) (req_headers req) in
  let all := extract_all W credential urls (recorded W req s) in
  ingest W credential msg req s
  = (Returned {| status := 200;
                 json := res_webhook msg
                           (Number_toString (clock W (clock_reads s)))
                           (clock W (S (clock_reads s))) (length urls)
                           (match all.1 with
                            | [] => None
                            | _ => Some all.1
                            end) |},
     all.2).
Proof.
  intros urls all.
  unfold ingest, try_catch, bind, Date_now, webhookData_push, with_local.
  cbn [clock_reads webhookData extractedData webhookTokens random_draws
       outbound wh_id].
  fold urls. fold (webhookPayload_of W req s). fold (recorded W req s).
  rewrite ingest_loop_run. fold all. cbn [ret app]. done.
Qed.



(** ** The public route *)

Lemma discoverUrls_depends (W : World) (body : option (JsValue (number W)))
      (h h' : gmap jsstring jsstring) :
  h !! lit "referer" = h' !! lit "referer" →
  discoverUrls W body h = discoverUrls W body h'.
Proof. unfold discoverUrls. by intros ->. Qed.

(** C6.  The requests sent for a [POST /webhook-public] are one per
    discovered URL, in order, each with the [User-Agent] header and nothing
    else.  Two requests with the same body and the same [referer], whatever
    else their headers and query carry and whatever the stores hold, send
    the same requests. *)
Theorem public_route_sends_no_credential (W : World)
        (req : Request (number W)) (s : State (number W)) :
  let urls := discoverUrls W (req_body req) (req_headers req) in
  outbound (post_webhook_public W req s).2
  = outbound s ++
    ((λ u, {| out_url := JStr u;
              out_headers := [(lit "User-Agent", userAgent)] |}) <$> urls) ∧
  ∀ (req' : Request (number W)) (s' : State (number W)),
    req_body req' = req_body req →
    req_headers req' !! lit "referer" = req_headers req !! lit "referer" →
    drop (length (outbound s')) (outbound (post_webhook_public W req' s').2)
    = drop (length (outbound s)) (outbound (post_webhook_public W req s).2).
Proof.
  intros urls.
  assert (∀ r t, outbound (post_webhook_public W r t).2
                 = outbound t ++
                   fetches None (discoverUrls W (req_body r) (req_headers r)))
    as Hsent.
  { intros r t. unfold post_webhook_public. rewrite ingest_run. cbn [snd].
    by destruct (extract_all_spec W None
                   (discoverUrls W (req_body r) (req_headers r))
                   (recorded W r t)) as (_ & -> & _). }
  split; [apply Hsent|].
  intros req' s' Hbody Hreferer.
  rewrite !Hsent, !drop_app_length, Hbody.
  by rewrite (discoverUrls_depends W _ _ _ Hreferer).
Qed.

Lemma public_route_sends_no_credential_witness :
  drop (length (outbound (initial_state frozen_world)))
       (outbound (post_webhook_public frozen_world with_credentials
                    (initial_state frozen_world)).2)
  = drop (length (outbound (initial_state frozen_world)))
         (outbound (post_webhook_public frozen_world without_credentials
                      (initial_state frozen_world)).2).
Proof.
  apply (public_route_sends_no_credential frozen_world without_credentials
           (initial_state frozen_world)); reflexivity.
Defined.

(** ** The URL pattern *)

Lemma span_url_spec (s : jsstring) :
  s = (span_url s).1 ++ (span_url s).2 ∧
  Forall (λ c, url_char c = true) (span_url s).1 ∧ stops (span_url s).2.
Proof.
  induction s as [|c s (IH1 & IH2 & IH3)]; [by repeat split|].
  cbn [span_url]. destruct (url_char c) eqn:Hc.
  - destruct (span_url s) as [w r]. cbn [fst snd] in *.
    split; [by rewrite IH1 at 1|]. split; [by constructor|done].
  - by repeat split.
Qed.

Lemma span_url_unique (w r : jsstring) :
  Forall (λ c, url_char c = true) w → stops r → span_url (w ++ r) = (w, r).
Proof.
  intros Hw Hr. induction Hw as [|c w Hc _ IH]; cbn [app span_url].
  - destruct r as [|d r]; [done|]. simpl in Hr. cbn [span_url]. by rewrite Hr.
  - by rewrite Hc, IH.
Qed.

Lemma urlRegex_tail_Some (scheme s u rest : jsstring) :
  urlRegex_tail scheme s = Some (u, rest) ↔
  ∃ w, w ≠ [] ∧ Forall (λ c, url_char c = true) w ∧ stops rest ∧
       s = lit "://" ++ w ++ rest ∧ u = scheme ++ lit "://" ++ w.
Proof.
  unfold urlRegex_tail. split.
  - destruct (strip_prefix (lit "://") s) as [s'|] eqn:Hs; [|done].
    apply strip_prefix_spec in Hs as ->.
    destruct (span_url_spec s') as (Hsplit & Hw & Hr).
    destruct (span_url s') as [[|c w] r]; [done|]. intros [= <- <-].
    exists (c :: w). cbn [fst snd] in *. by rewrite Hsplit at 1.
  - intros (w & Hne & Hw & Hr & -> & ->).
    rewrite (proj2 (strip_prefix_spec _ _ (w ++ rest)) eq_refl).
    rewrite span_url_unique by done. by destruct w.
Qed.

Lemma urlRegex_at_Some (s u rest : jsstring) :
  urlRegex_at s = Some (u, rest) ↔
  ∃ scheme w, is_scheme scheme ∧ w ≠ [] ∧
              Forall (λ c, url_char c = true) w ∧ stops rest ∧
              u = scheme ++ lit "://" ++ w ∧ s = u ++ rest.
Proof.
  unfold urlRegex_at. split.
  - destruct (strip_prefix (lit "http") s) as [s1|] eqn:Hs1; [|done].
    apply strip_prefix_spec in Hs1 as ->.
    destruct (match strip_prefix (lit "s") s1 with
              | Some s2 => urlRegex_tail (lit "https") s2
              | None => None
              end) as [m|] eqn:Hsecure.
    + intros [= ->].
      destruct (strip_prefix (lit "s") s1) as [s2|] eqn:Hs2; [|done].
      apply strip_prefix_spec in Hs2 as ->.
      apply urlRegex_tail_Some in Hsecure as (w & ? & ? & ? & -> & ->).
      exists (lit "https"), w. unfold is_scheme.
      repeat split; auto; by rewrite <-!app_assoc.
    + intros (w & ? & ? & ? & -> & ->)%urlRegex_tail_Some.
      exists (lit "http"), w. unfold is_scheme.
      repeat split; auto; by rewrite <-!app_assoc.
  - intros (scheme & w & [-> | ->] & Hne & Hw & Hr & -> & ->).
    + rewrite (proj2 (strip_prefix_spec (lit "http") _
                        (lit "://" ++ w ++ rest))) by by rewrite <-!app_assoc.
      change (strip_prefix (lit "s") (lit "://" ++ w ++ rest)) with (@None jsstring).
      apply urlRegex_tail_Some. eauto 10.
    + rewrite (proj2 (strip_prefix_spec (lit "http") _
                        (lit "s" ++ lit "://" ++ w ++ rest)))
        by by rewrite <-!app_assoc.
      rewrite (proj2 (strip_prefix_spec (lit "s") _ (lit "://" ++ w ++ rest))
                 eq_refl).
      assert (urlRegex_tail (lit "https") (lit "://" ++ w ++ rest)
              = Some (lit "https" ++ lit "://" ++ w, rest)) as ->; [|done].
      apply urlRegex_tail_Some. eauto 10.
Qed.

Lemma url_begins_match (s : jsstring) :
  url_begins s ↔ ∃ u rest, urlRegex_at s = Some (u, rest).
Proof.
  split.
  - intros (scheme & c & s' & Hscheme & Hc & ->).
    destruct (span_url_spec s') as (Hsplit & Hw & Hr).
    exists (scheme ++ lit "://" ++ c :: (span_url s').1), (span_url s').2.
    apply urlRegex_at_Some. exists scheme, (c :: (span_url s').1).
    repeat split; auto.
    rewrite <-!app_assoc. cbn [app]. by rewrite <-Hsplit.
  - intros (u & rest & (scheme & w & Hscheme & Hne & Hw & _ & -> & ->)
                         %urlRegex_at_Some).
    destruct w as [|c w]; [done|]. exists scheme, c, (w ++ rest).
    inversion Hw; subst. repeat split; auto. by rewrite <-!app_assoc.
Qed.

Lemma urlRegex_at_None (s : jsstring) : urlRegex_at s = None ↔ ¬ url_begins s.
Proof.
  rewrite url_begins_match. destruct (urlRegex_at s) as [[u rest]|].
  - split; [done|]. intros []. eauto.
  - split; [|done]. intros _ (u & rest & [=]).
Qed.

Lemma scheme_not_empty (scheme t : jsstring) :
  is_scheme scheme → ∃ c t', scheme ++ t = c :: t' ∧
                             (length t < length (scheme ++ t))%nat.
Proof.
  intros [-> | ->]; eexists _, _; (split; [reflexivity|]);
    rewrite length_app; simpl; lia.
Qed.

(** With fuel for every unit of the text, the search finds the matches. *)
Lemma urlRegex_scan_matches (fuel : nat) (s : jsstring) :
  (length s ≤ fuel)%nat → url_matches s (urlRegex_scan fuel s).
Proof.
  revert s. induction fuel as [|fuel IH]; intros s Hlen.
  - destruct s; [constructor|simpl in Hlen; lia].
  - destruct s as [|c s]; [constructor|]. cbn [urlRegex_scan].
    destruct (urlRegex_at (c :: s)) as [[u rest]|] eqn:Hat.
    + apply urlRegex_at_Some in Hat
        as (scheme & w & Hscheme & Hne & Hw & Hr & -> & Hs).
      rewrite Hs, <-!app_assoc. apply um_url; auto. apply IH.
      destruct (scheme_not_empty scheme (lit "://" ++ w ++ rest) Hscheme)
        as (_ & _ & _ & Hshorter).
      rewrite <-!app_assoc in Hs. rewrite <-Hs in Hshorter.
      rewrite !length_app in Hshorter. simpl in Hlen, Hshorter. lia.
    + apply um_skip; [by apply urlRegex_at_None|]. apply IH.
      simpl in Hlen. lia.
Qed.

(** The matches of a text are determined: they are what the search finds. *)
Lemma url_matches_scan (s : jsstring) (us : list jsstring) :
  url_matches s us → ∀ fuel, (length s ≤ fuel)%nat → us = urlRegex_scan fuel s.
Proof.
  induction 1 as [|c s us Hno _ IH|scheme w rest us Hscheme Hne Hw Hr _ IH];
    intros fuel Hlen.
  - by destruct fuel.
  - destruct fuel as [|fuel]; [simpl in Hlen; lia|]. cbn [urlRegex_scan].
    apply urlRegex_at_None in Hno. rewrite Hno. apply IH. simpl in Hlen. lia.
  - assert (urlRegex_at (scheme ++ lit "://" ++ w ++ rest)
            = Some (scheme ++ lit "://" ++ w, rest)) as Hat.
    { apply urlRegex_at_Some. exists scheme, w. repeat split; auto.
      by rewrite <-!app_assoc. }
    destruct (scheme_not_empty scheme (lit "://" ++ w ++ rest) Hscheme)
      as (c & t & Htext & Hshorter).
    rewrite Htext in *. rewrite !length_app in Hshorter.
    destruct fuel as [|fuel]; [simpl in Hlen; lia|]. cbn [urlRegex_scan].
    rewrite Hat. f_equal. apply IH. simpl in Hlen, Hshorter. lia.
Qed.

Lemma String_match_urlRegex_default (s : jsstring) :
  default [] (String_match_urlRegex s) = urlRegex_scan (length s) s.
Proof. unfold String_match_urlRegex. by destruct (urlRegex_scan _ s). Qed.

(** ** URL discovery *)

(** C4 (amended).  The discovered URLs are the matches found in the
    serialized body when the body is an object or an array, followed by the
    value of the [referer] header when that header is present and not
    empty (even if the value is already among the matches).  Reading the
    text from left to right, a match begins with [http://] or [https://]
    followed by at least one unit that is neither white space nor a double
    quote nor an angle character, and runs up to the next such unit; the
    search goes on behind each match, so matches are in order of
    occurrence, do not overlap, and are kept when repeated.  Nothing is
    discovered when the body is absent or not structured and there is no
    [referer] value. *)
Theorem discoverUrls_correct (W : World) (body : option (JsValue (number W)))
        (headers : gmap jsstring jsstring) (urls : list jsstring) :
  (discoverUrls W body headers = urls ↔
   ∃ found, urls = found ++ referer_part headers ∧
     match body with
     | Some b =>
         if is_object b
         then url_matches (JSON_stringify (JSON_number W) b) found
         else found = []
     | None => found = []
     end) ∧
  ((body = None ∨ ∃ b, body = Some b ∧ is_object b = false) →
   (headers !! lit "referer" = None ∨ headers !! lit "referer" = Some []) →
   discoverUrls W body headers = []).
Proof.
  unfold discoverUrls. fold (referer_part headers). split.
  - split.
    + intros <-. eexists. split; [reflexivity|].
      destruct body as [b|]; [|done]. destruct (is_object b); [|done].
      rewrite String_match_urlRegex_default. by apply urlRegex_scan_matches.
    + intros (found & -> & Hfound). f_equal.
      destruct body as [b|]; [|done]. destruct (is_object b); [|done].
      rewrite String_match_urlRegex_default. symmetry.
      by apply url_matches_scan.
  - intros Hbody Hreferer.
    assert (referer_part headers = []) as ->.
    { unfold referer_part. by destruct Hreferer as [-> | ->]. }
    destruct Hbody as [-> | (b & -> & ->)]; done.
Qed.

Lemma discoverUrls_correct_witness :
  discoverUrls frozen_world (Some (JStr (lit "https://x.test/1"))) empty_referer
  = [].
Proof.
  apply (discoverUrls_correct frozen_world
           (Some (JStr (lit "https://x.test/1"))) empty_referer []).
  - right. eexists. split; reflexivity.
  - right. reflexivity.
Defined.

(** A body whose string ends right behind the slashes, sent with an empty
    [Referer] header: read as the claim is stated, the text [http://] and
    the header's value are discovered; the handlers discover nothing. *)
Lemma discoverUrls_counterexample :
  claimed_discovery frozen_world (Some bare_scheme_body) empty_referer
  = [lit "http://"; []] ∧
  discoverUrls frozen_world (Some bare_scheme_body) empty_referer = [].
Proof. split; vm_compute; reflexivity. Qed.

(** The example of the specification. *)
Example discoverUrls_sample :
  discoverUrls frozen_world (Some sample_body) ∅
  = [lit "https://x.test/1"; lit "https://x.test/2"].
Proof. vm_compute. reflexivity. Qed.

(** ** Frames: what a computation leaves alone *)

Section Respects.
Context {S : Type} (R : relation S) `{!PreOrder R}.

Lemma respects_ret {A} (a : A) : respects R (ret a).
Proof. intros s. done. Qed.

Lemma respects_throw {A} (e : JsError) : respects R (@throw S A e).
Proof. intros s. done. Qed.

Lemma respects_bind {A B} (m : M S A) (k : A → M S B) :
  respects R m → (∀ a, respects R (k a)) → respects R (bind m k).
Proof.
  intros Hm Hk s. unfold bind. specialize (Hm s).
  destruct (m s) as [[a|e] s1]; [|done].
  etrans; [exact Hm|apply Hk].
Qed.

Lemma respects_try_catch {A} (m : M S A) (h : JsError → M S A) :
  respects R m → (∀ e, respects R (h e)) → respects R (try_catch m h).
Proof.
  intros Hm Hh s. unfold try_catch. specialize (Hm s).
  destruct (m s) as [[a|e] s1]; [done|].
  etrans; [exact Hm|apply Hh].
Qed.

Lemma respects_for_of {X} (xs : list X) (body : X → M S unit) :
  (∀ x, respects R (body x)) → respects R (for_of xs body).
Proof.
  intros Hbody. induction xs as [|x xs IH]; cbn [for_of].
  - apply respects_ret.
  - apply respects_bind; auto.
Qed.

Lemma respects_on_stores {L A} (m : M S A) :
  respects R m → respects (@beside S L R) (on_stores m).
Proof.
  intros Hm [s l]. unfold on_stores, beside. cbn [fst snd].
  specialize (Hm s). by destruct (m s).
Qed.

Lemma respects_local_push {X} (x : X) :
  respects (@beside S (list X) R) (local_push x).
Proof. intros [s l]. unfold beside. done. Qed.

Lemma respects_with_local {L A} (l : L) (m : M (S * L) A) :
  respects (beside R) m → respects R (with_local l m).
Proof.
  intros Hm s. unfold with_local. specialize (Hm (s, l)). unfold beside in Hm.
  by destruct (m (s, l)) as [[a|e] [s1 l1]].
Qed.
End Respects.

Global Instance beside_preorder {S L} (R : relation S) `{!PreOrder R} :
  PreOrder (@beside S L R).
Proof.
  split.
  - intros [s l]. unfold beside. done.
  - intros a b c Hab Hbc. unfold beside in *. by etrans.
Qed.

Global Instance frame_preorder {number} : PreOrder (@frame number).
Proof.
  split.
  - intros s. unfold frame. auto.
  - intros a b c (Hw1 & Ht1 & Hc1) (Hw2 & Ht2 & Hc2). unfold frame.
    rewrite Hw2, Ht2. repeat split; auto. lia.
Qed.

(** Decomposes a goal [respects R m] along the structure of [m]. *)
Ltac respects_step :=
  lazymatch goal with
  | |- respects _ (if ?b then _ else _) => destruct b
  | |- respects _ (match ?x with _ => _ end) => destruct x
  | |- respects _ (ret _) => apply respects_ret; apply _
  | |- respects _ (throw _) => apply respects_throw; apply _
  | |- respects _ (bind _ _) => apply respects_bind; [apply _| |intros ?]
  | |- respects _ (try_catch _ _) =>
      apply respects_try_catch; [apply _| |intros ?]
  | |- respects _ (for_of _ _) => apply respects_for_of; [apply _|intros ?]
  | |- respects _ (on_stores _) => apply respects_on_stores
  | |- respects _ (local_push _) => apply respects_local_push; apply _
  | |- respects _ (with_local _ _) =>
      apply respects_with_local; try apply _
  end.

Lemma Date_now_frame (W : World) : respects frame (Date_now W).
Proof. intros s. unfold frame. simpl. auto. Qed.

Lemma axios_get_frame (W : World) (url : JsValue (number W))
      (headers : list (jsstring * jsstring)) :
  respects frame (axios_get W url headers).
Proof. intros s. unfold frame. simpl. auto. Qed.

Lemma extractedData_push_frame (W : World) (c : ExtractedContent (number W)) :
  respects frame (extractedData_push W c).
Proof. intros s. unfold frame. simpl. auto. Qed.

Lemma console_template_respects (W : World) {S} (R : relation S)
      `{!PreOrder R} (v : JsValue (number W)) :
  respects R (console_template W v).
Proof. unfold console_template. repeat respects_step. Qed.

Lemma display_respects (W : World) {S} (R : relation S) `{!PreOrder R}
      (url : JsValue (number W)) (c : ExtractedContent (number W)) :
  respects R (display W url c).
Proof.
  unfold display. apply respects_bind; [apply _| |intros _].
  - by apply console_template_respects.
  - repeat respects_step.
Qed.

Lemma extractDataFromUrl_frame (W : World) (url : JsValue (number W))
      (token : option jsstring) :
  respects frame (extractDataFromUrl W url token).
Proof.
  unfold extractDataFromUrl, cheerio_load.
  repeat first [ apply console_template_respects; apply _
               | apply Date_now_frame | apply axios_get_frame
               | respects_step ].
Qed.

Lemma batch_round_frame (W : World) (webhookToken : jsstring)
      (url : JsValue (number W)) :
  respects (beside frame) (batch_round W webhookToken url).
Proof.
  unfold batch_round.
  repeat first [ apply console_template_respects; apply _
               | apply display_respects; apply _
               | apply Date_now_frame | apply extractedData_push_frame
               | apply extractDataFromUrl_frame
               | respects_step ].
Qed.

Lemma extract_batch_frame (W : World) (req : Request (number W))
      (webhookToken : jsstring) :
  respects frame (extract_batch W req webhookToken).
Proof.
  unfold extract_batch, destructure.
  repeat first [ apply batch_round_frame | respects_step ].
Qed.

(** ** How the calls move the stores *)

Lemma frame_keeps_webhooks (W : World) (s s' : State (number W)) :
  frame s s' → keeps_webhooks W s s'.
Proof.
  intros (Hw & Ht & Hc). repeat split; auto. intros token. rewrite Ht. auto.
Qed.

Lemma keeps_webhooks_evolves (W : World) (s s' : State (number W)) :
  keeps_webhooks W s s' → evolves W s s'.
Proof. intros (Hw & Hc & Ht). repeat split; auto. Qed.

Lemma keeps_webhooks_then (W : World) (s s1 s2 : State (number W)) :
  keeps_webhooks W s s1 → evolves W s1 s2 → evolves W s s2.
Proof.
  intros (Hw & Hc & Ht) (Hc' & Hw' & Ht'). split; [lia|]. split.
  - rewrite <-Hw. destruct Hw' as [?|[?|(r & k & Hk & ? & ?)]]; auto.
    right; right. exists r, k. repeat split; auto; lia.
  - intros token [Hin|Hgen]%Ht'; auto.
Qed.

Lemma validateWebhookToken_keeps (W : World) (req : Request (number W))
      (s : State (number W)) :
  keeps_webhooks W s (validateWebhookToken W req s).2.
Proof.
  pose proof (validateWebhookToken_cases W req s) as Hcases.
  destruct (validateWebhookToken W req s) as [[[answer|t]|e] s']; [| |done].
  - destruct Hcases as [-> _]. repeat split; auto.
  - destruct Hcases as (_ & _ & d & Hd & ->). cbn [snd]. repeat split.
    + simpl. lia.
    + intros token. cbn [webhookTokens].
      destruct (decide (t = token)) as [<-|Hne].
      * rewrite Hd. eauto.
      * rewrite lookup_insert_ne by done. auto.
Qed.

Lemma gated_evolves (W : World)
      (handler : Request (number W) → jsstring → M (State (number W))
                                                   (Response (number W)))
      (req : Request (number W)) (s : State (number W)) :
  (∀ t s1, evolves W s1 (handler req t s1).2) →
  evolves W s (gated W handler req s).2.
Proof.
  intros Hhandler. pose proof (validateWebhookToken_keeps W req s) as Hgate.
  unfold gated, bind.
  destruct (validateWebhookToken W req s) as [[[answer|t]|e] s1];
    cbn [snd] in *; try by apply keeps_webhooks_evolves.
  eapply keeps_webhooks_then; [exact Hgate|apply Hhandler].
Qed.

Lemma ingest_evolves (W : World) (credential : option jsstring)
      (msg : jsstring) (req : Request (number W)) (s : State (number W)) :
  evolves W s (ingest W credential msg req s).2.
Proof.
  rewrite ingest_run. cbn [snd].
  destruct (extract_all_spec W credential
              (discoverUrls W (req_body req) (req_headers req))
              (recorded W req s)) as (_ & _ & Hw & Ht & Hc & _).
  split; [|split].
  - rewrite Hc. simpl. lia.
  - right; right. exists (webhookPayload_of W req s), (clock_reads s).
    rewrite Hc, Hw. simpl. repeat split; auto; lia.
  - intros token. rewrite Ht. auto.
Qed.

Lemma create_token_run (W : World) (req : Request (number W))
      (s : State (number W)) :
  let token := newToken (clock W (clock_reads s))
                        (random_suffix W (random W (random_draws s))) in
  (∃ e, create_token W req s = (Thrown e, s)) ∨
  ∃ nm,
    create_token W req s
    = (Returned {| status := 200;
                   json := res_token_created (lit "Token created successfully")
                             token nm |},
       {| webhookData := webhookData s; extractedData := extractedData s;
          webhookTokens :=
            <[token := {| name := nm; created := clock W (S (clock_reads s));
                          lastUsed := None; usageCount := 0 |}]>
              (webhookTokens s);
          clock_reads := S (S (clock_reads s));
          random_draws := S (random_draws s); outbound := outbound s |}).
Proof.
  unfold create_token, destructure, bind.
  destruct (req_body req) as [[]|]; cbn [throw ret]; eauto.
Qed.

Lemma create_token_keeps (W : World) (req : Request (number W))
      (s : State (number W)) :
  keeps_webhooks W s (create_token W req s).2.
Proof.
  destruct (create_token_run W req s) as [[e ->]|[nm ->]]; cbn [snd].
  - repeat split; auto.
  - repeat split; [simpl; lia|]. intros token. cbn [webhookTokens].
    destruct (decide (newToken (clock W (clock_reads s))
                        (random_suffix W (random W (random_draws s))) = token))
      as [<-|Hne].
    + intros _. right. by eexists _, _.
    + rewrite lookup_insert_ne by done. auto.
Qed.

Lemma delete_token_keeps (W : World) (token : jsstring)
      (s : State (number W)) :
  keeps_webhooks W s (delete_token W token s).2.
Proof.
  unfold delete_token, bind, get_webhookTokens, set_webhookTokens.
  cbn [ret].
  destruct (webhookTokens s !! token) eqn:Hd; cbn [snd];
    repeat split; auto.
  intros token'. unfold ret. cbn [snd webhookTokens].
  rewrite lookup_delete_is_Some. intros [_ ?]. auto.
Qed.

Lemma error_middleware_state (W : World)
      (m : M (State (number W)) (Response (number W)))
      (s : State (number W)) :
  (error_middleware W m s).2 = (m s).2.
Proof. unfold error_middleware, try_catch. by destruct (m s) as [[]]. Qed.

Lemma serve_evolves (W : World) (c : Call W) (s : State (number W)) :
  evolves W s (serve W c s).2.
Proof.
  unfold serve. rewrite error_middleware_state.
  destruct c as [req|req|req|req|token| |].
  - apply gated_evolves. intros t s1. apply ingest_evolves.
  - apply ingest_evolves.
  - apply gated_evolves. intros t s1.
    apply keeps_webhooks_evolves, frame_keeps_webhooks, extract_batch_frame.
  - apply keeps_webhooks_evolves, create_token_keeps.
  - apply keeps_webhooks_evolves, delete_token_keeps.
  - repeat split; auto.
  - repeat split; auto.
Qed.

(** ** Decimal renderings *)

Lemma lit_inj (a b : string) : lit a = lit b → a = b.
Proof.
  unfold lit. revert b.
  induction a as [|c a IH]; intros [|d b]; cbn [list_ascii_of_string map];
    try done.
  intros [= Hc Hab]. f_equal; [|by apply IH].
  apply (f_equal ascii_of_N) in Hc. by rewrite !ascii_N_embedding in Hc.
Qed.

Global Instance Number_toString_inj : Inj (=) (=) Number_toString.
Proof. intros a b H%lit_inj. by apply (inj pretty). Qed.

Lemma pretty_N_go_head (x : N) (s : string) :
  (0 < x)%N → ∃ d rest, pretty_N_go x s = String (pretty_N_char d) rest.
Proof.
  revert s. induction (N.lt_wf_0 x) as [x _ IH]; intros s Hx.
  rewrite pretty_N_go_step by done.
  destruct (decide (x `div` 10 = 0)%N) as [->|Hq].
  - rewrite pretty_N_go_0. eauto.
  - apply IH; [apply N.div_lt; lia|]. by apply N.neq_0_lt_0.
Qed.

(** A decimal rendering begins with a digit or the sign. *)
Lemma pretty_Z_head (z : Z) :
  ∃ c rest, pretty z = String c rest ∧ c ≠ "s"%char.
Proof.
  assert (∀ p : positive, ∃ c rest,
            pretty p = String c rest ∧ c ≠ "s"%char) as Hpos.
  { intros p. unfold pretty, pretty_positive, pretty, pretty_N.
    destruct (decide (N.pos p = 0)%N); [done|].
    destruct (pretty_N_go_head (N.pos p) EmptyString) as (d & rest & ->); [lia|].
    eexists _, _. split; [done|].
    unfold pretty_N_char. repeat case_match; discriminate. }
  destruct z as [|p|p].
  - by eexists _, _.
  - apply Hpos.
  - eexists _, _. split; [reflexivity|discriminate].
Qed.

Lemma newToken_not_default (now : Z) (suffix : jsstring) :
  newToken now suffix ≠ defaultToken.
Proof.
  unfold newToken, Number_toString, defaultToken.
  destruct (pretty_Z_head now) as (c & rest & -> & Hc).
  change (lit "webhook-secret-2024") with (lit "webhook-" ++ lit "secret-2024").
  intros H%app_inv_head. injection H as H _. apply Hc.
  apply (f_equal ascii_of_N) in H. by rewrite ascii_N_embedding in H.
Qed.

(** ** Invariants of the process *)

Lemma run_cons (W : World) (c : Call W) (cs : list (Call W))
      (s : State (number W)) :
  run W (c :: cs) s = run W cs (serve W c s).2.
Proof. done. Qed.

Lemma ids_follow_clock_step (W : World) (s s' : State (number W)) :
  evolves W s s' → ids_follow_clock W s → ids_follow_clock W s'.
Proof.
  intros (Hc & Hw & _) (reads & Hsorted & Hpast & Hids).
  destruct Hw as [Hw|[Hw|(r & k & Hk & Hw & Hr)]].
  - exists reads. rewrite Hw. repeat split; auto.
    eapply Forall_impl; [exact Hpast|]. simpl. lia.
  - exists []. rewrite Hw. repeat split; constructor.
  - exists (reads ++ [k]). split; [|split].
    + apply StronglySorted_app. split; [|split; [done|repeat constructor]].
      intros k1 k2 Hk1 ->%list_elem_of_singleton.
      rewrite Forall_forall in Hpast. specialize (Hpast k1 Hk1). lia.
    + apply Forall_app. split.
      * eapply Forall_impl; [exact Hpast|]. simpl. lia.
      * repeat constructor. lia.
    + rewrite Hw, !fmap_app, Hids. simpl. by rewrite Hr.
Qed.

Lemma tokens_have_origin_step (W : World) (s s' : State (number W)) :
  evolves W s s' → tokens_have_origin W s → tokens_have_origin W s'.
Proof.
  intros (_ & _ & Ht) Horigin token [Hin|Hgen]%Ht; auto.
Qed.

Lemma run_invariant (W : World) (P : State (number W) → Prop) :
  (∀ s s', evolves W s s' → P s → P s') →
  ∀ cs s, P s → P (run W cs s).
Proof.
  intros Hstep cs. induction cs as [|c cs IH]; intros s Hs; [done|].
  rewrite run_cons. apply IH. eapply Hstep; [apply serve_evolves|done].
Qed.

Lemma initial_ids (W : World) : ids_follow_clock W (initial_state W).
Proof. exists []. repeat split; constructor. Qed.

Lemma initial_tokens (W : World) : tokens_have_origin W (initial_state W).
Proof.
  intros token [d Hd]. left. unfold initial_state in Hd. cbn in Hd.
  apply lookup_singleton_Some in Hd as [<- _]. done.
Qed.

(** ** Webhook ids *)

(** C7 (amended).  After any sequence of calls, the id of every stored
    webhook is the decimal rendering of the reading of the millisecond
    clock taken when the record was built, and a later record carries a
    later reading.  Two records therefore have the same id exactly when
    their readings show the same millisecond; when the clock shows a
    greater value at every later reading, the ids are pairwise distinct and
    their numbers increase. *)
Theorem webhook_ids_follow_clock (W : World) (cs : list (Call W)) :
  let ids := wh_id <$> webhookData (run W cs (initial_state W)) in
  ∃ reads : list nat,
    StronglySorted lt reads ∧
    ids = (λ k, Number_toString (clock W k)) <$> reads ∧
    (∀ i j ki kj, reads !! i = Some ki → reads !! j = Some kj →
                  ids !! i = ids !! j ↔ clock W ki = clock W kj) ∧
    ((∀ k k', (k < k')%nat → (clock W k < clock W k')%Z) →
     NoDup ids ∧ StronglySorted Z.lt (clock W <$> reads)).
Proof.
  intros ids.
  destruct (run_invariant W (ids_follow_clock W) (ids_follow_clock_step W) cs
              (initial_state W) (initial_ids W))
    as (reads & Hsorted & _ & Hids).
  fold ids in Hids. exists reads. split; [done|]. split; [done|]. split.
  - intros i j ki kj Hi Hj. rewrite Hids, !list_lookup_fmap, Hi, Hj. simpl.
    split; [intros [= H]; by apply (inj Number_toString)|by intros ->].
  - intros Hclock.
    assert (StronglySorted Z.lt (clock W <$> reads)) as Hnumbers.
    { clear Hids. induction Hsorted as [|k reads _ IH Hk]; [constructor|].
      cbn [fmap list_fmap]. constructor; [done|].
      apply Forall_fmap. eapply Forall_impl; [exact Hk|]. intros k'. apply Hclock. }
    split; [|done]. rewrite Hids.
    change (λ k, Number_toString (clock W k)) with (Number_toString ∘ clock W).
    rewrite list_fmap_compose. apply NoDup_fmap_2; [apply _|].
    clear -Hnumbers. induction Hnumbers as [|z zs _ IH Hz]; constructor; auto.
    intros Hin. rewrite Forall_forall in Hz. specialize (Hz z Hin). lia.
Qed.

Lemma webhook_ids_follow_clock_witness :
  NoDup (wh_id <$> webhookData
           (run ticking_world two_webhooks_ticking
                (initial_state ticking_world))).
Proof.
  destruct (webhook_ids_follow_clock ticking_world two_webhooks_ticking)
    as (reads & _ & _ & _ & Hdistinct).
  apply Hdistinct. intros k k' Hk. unfold ticking_world, mock, ticking. simpl.
  lia.
Defined.

(** Two webhooks received within one millisecond get the same id. *)
Lemma webhook_ids_counterexample :
  wh_id <$> webhookData
    (run frozen_world two_webhooks_frozen (initial_state frozen_world))
  = [lit "1700000000000"; lit "1700000000000"] ∧
  ¬ NoDup (wh_id <$> webhookData
             (run frozen_world two_webhooks_frozen
                  (initial_state frozen_world))).
Proof.
  assert (wh_id <$> webhookData
            (run frozen_world two_webhooks_frozen (initial_state frozen_world))
          = [lit "1700000000000"; lit "1700000000000"]) as Hids
      by (vm_compute; reflexivity).
  split; [exact Hids|]. rewrite Hids. intros Hnodup.
  apply NoDup_cons in Hnodup as [Hnotin _]. apply Hnotin. by left.
Qed.

(** ** Token strings *)

(** C8 (amended).  After any sequence of calls, every key of the token
    store is either the default token, which is the fixed text
    [webhook-secret-2024] put there when the process starts, or a string
    made by token creation from a reading of the clock and a random draw
    ([webhook-], the reading, a dash, and a piece of the draw's rendering
    in base 36).  Token creation answers with the string it made and
    stores fresh metadata under it; it does not look whether the string
    is a key already. *)
Theorem token_store_origin (W : World) (cs : list (Call W)) :
  (∀ token,
     is_Some (webhookTokens (run W cs (initial_state W)) !! token) →
     token = defaultToken ∨
     ∃ k j, token = lit "webhook-" ++ Number_toString (clock W k) ++ lit "-" ++
                    take 13 (drop 2 (Number_toString36 W (random W j)))) ∧
  (∀ req s answer s',
     create_token W req s = (Returned answer, s') →
     let token := newToken (clock W (clock_reads s))
                           (random_suffix W (random W (random_draws s))) in
     ∃ nm,
       json answer = res_token_created (lit "Token created successfully")
                       token nm ∧
       webhookTokens s'
       = <[token := {| name := nm; created := clock W (S (clock_reads s));
                       lastUsed := None; usageCount := 0 |}]>
           (webhookTokens s)).
Proof.
  split.
  - apply (run_invariant W (tokens_have_origin W) (tokens_have_origin_step W)
             cs (initial_state W) (initial_tokens W)).
  - intros req s answer s' Hrun token.
    destruct (create_token_run W req s) as [[e He]|[nm Hnm]];
      [congruence|].
    fold token in Hnm. rewrite Hnm in Hrun. injection Hrun as <- <-.
    by exists nm.
Qed.

Lemma token_store_origin_witness :
  ∃ nm, webhookTokens (serve frozen_world create_a_token
                         (initial_state frozen_world)).2
        = <[lit "webhook-1700000000000-5" :=
              {| name := nm; created := 1700000000000%Z;
                 lastUsed := None; usageCount := 0 |}]>
            (webhookTokens (initial_state frozen_world)).
Proof.
  destruct (token_store_origin frozen_world []) as [_ Hcreate].
  destruct (Hcreate token_request (initial_state frozen_world) _ _ eq_refl)
    as (nm & _ & Hstore).
  exists nm. exact Hstore.
Defined.

(** The default token is a fixed text that token creation cannot produce,
    and a creation that falls into the millisecond of an earlier one with
    the same draw answers with a string that is a key already. *)
Lemma token_store_counterexample :
  (is_Some (webhookTokens (initial_state frozen_world) !! defaultToken) ∧
   ¬ generated frozen_world defaultToken) ∧
  ∃ token nm s',
    serve frozen_world create_a_token
      (run frozen_world [create_a_token] (initial_state frozen_world))
    = (Returned {| status := 200;
                   json := res_token_created
                             (lit "Token created successfully") token nm |},
       s') ∧
    is_Some (webhookTokens (run frozen_world [create_a_token]
                                (initial_state frozen_world)) !! token).
Proof.
  split.
  - split.
    + eexists. vm_compute. reflexivity.
    + intros (k & j & H). symmetry in H. by apply newToken_not_default in H.
  - eexists _, _, _. split.
    + vm_compute. reflexivity.
    + eexists. vm_compute. reflexivity.
Qed.

(** ** Batch extraction *)

(** C5 (failing input).  A batch of one URL whose host serves the text
    [42] as [text/plain]: the transport hands back the number 42, the
    result is pushed, printing it throws, and the [catch] of the loop
    pushes an [error] result for the same URL.  The answer lists two
    results for one URL. *)
Theorem extract_batch_two_results_for_one_url :
  (post_extract_batch number_page_world one_url_batch
     (initial_state number_page_world)).1
  = Returned
      {| status := 200;
         json := res_batch (lit "Extracted data from 1 URLs")
                   [ec_text (JNum 42%Z) (JStr (lit "http://h/n"))
                            1700000000002%Z;
                    ec_error
                      (lit "extractedContent.content.substring is not a function")
                      (JStr (lit "http://h/n")) 1700000000003%Z] |}.
Proof. vm_compute. reflexivity. Qed.

(** X12.  A batch request whose body has no list under [urls] (the
    property is missing, or holds a string, a number, an object) is
    answered 400 [URLs array is required], nothing being fetched or
    stored. *)
Lemma extract_batch_requires_list (W : World) (req : Request (number W))
      (webhookToken : jsstring) (s : State (number W)) (body : JsValue (number W)) :
  req_body req = Some body → body ≠ JNull →
  (∀ items, own_property (lit "urls")
              (match body with JObj props => props | _ => [] end)
            ≠ Some (JArr items)) →
  extract_batch W req webhookToken s
  = (Returned {| status := 400;
                 json := res_failure (lit "URLs array is required") |}, s).
Proof.
  intros Hbody Hnull Hurls. unfold extract_batch, try_catch, bind, destructure.
  rewrite Hbody.
  destruct body as [| | | | |props]; try done.
  cbn [ret]. destruct (own_property (lit "urls") props) as [[]|] eqn:Hp;
    try done.
  by destruct (Hurls items).
Qed.

Lemma display_printable (W : World) {S : Type} (url : jsstring)
      (c : ExtractedContent (number W)) (s : S) :
  printable c → display W (JStr url) c s = (Returned tt, s).
Proof.
  unfold display, console_template, bind. cbn [ToString_throws ret].
  by destruct c as [| |[]| |].
Qed.

Lemma batch_round_printable (W : World) (webhookToken url : jsstring)
      (s s1 : State (number W)) (l : list (ExtractedContent (number W)))
      (c : ExtractedContent (number W)) :
  extractDataFromUrl W (JStr url) (Some webhookToken) s = (Returned c, s1) →
  printable c →
  batch_round W webhookToken (JStr url) (s, l)
  = (Returned tt, (after_push s1 c, l ++ [c])).
Proof.
  intros Hext Hc. unfold batch_round, try_catch, bind, on_stores.
  cbn [fst snd]. rewrite Hext. unfold local_push, extractedData_push.
  cbn [fst snd]. fold (after_push s1 c).
  by rewrite (display_printable W url c _ Hc).
Qed.

Lemma batch_loop_run (W : World) (webhookToken : jsstring)
      (urls : list jsstring) (s : State (number W))
      (l : list (ExtractedContent (number W))) :
  Forall printable (extract_all W (Some webhookToken) urls s).1 →
  for_of (JStr <$> urls) (batch_round W webhookToken) (s, l)
  = (Returned tt, ((extract_all W (Some webhookToken) urls s).2,
                   l ++ (extract_all W (Some webhookToken) urls s).1)).
Proof.
  revert s l. induction urls as [|url urls IH]; intros s l.
  - simpl. by rewrite app_nil_r.
  - destruct (extractDataFromUrl_run W (JStr url) (Some webhookToken) s eq_refl)
      as (c & Hext & _).
    rewrite fmap_cons. cbn [extract_all for_of]. rewrite Hext.
    specialize (IH (after_push (after_fetch s (JStr url)
                                  (request_headers (Some webhookToken))) c)
                   (l ++ [c])).
    destruct (extract_all W (Some webhookToken) urls _) as [cs s2].
    cbn [fst snd] in *. intros [Hc Hcs]%Forall_cons.
    unfold bind at 1.
    rewrite (batch_round_printable W webhookToken url s _ l c Hext Hc).
    rewrite (IH Hcs). by rewrite <-app_assoc.
Qed.

(** The batch route as it is meant: when no [text] result carries anything
    but a string, a list of [N] URL strings is answered with the [N]
    results in the order of the list, each pushed on [extractedData]. *)
Lemma extract_batch_in_order (W : World) (req : Request (number W))
      (webhookToken : jsstring) (s : State (number W))
      (props : list (jsstring * JsValue (number W))) (urls : list jsstring) :
  req_body req = Some (JObj props) →
  own_property (lit "urls") props = Some (JArr (JStr <$> urls)) →
  Forall printable (extract_all W (Some webhookToken) urls s).1 →
  extract_batch W req webhookToken s
  = (Returned {| status := 200;
                 json := res_batch
                           (lit "Extracted data from " ++
                            Number_toString (Z.of_nat (length urls)) ++
                            lit " URLs")
                           (extract_all W (Some webhookToken) urls s).1 |},
     (extract_all W (Some webhookToken) urls s).2).
Proof.
  intros Hbody Hurls Hprintable.
  unfold extract_batch, try_catch, bind, destructure, with_local.
  rewrite Hbody. cbn [ret]. rewrite Hurls.
  rewrite (batch_loop_run W webhookToken urls s [] Hprintable).
  by rewrite length_fmap.
Qed.

(** * Further properties of the routes *)

(** ** Rejected and accepted requests *)

(** X1.  A request that the token check rejects is answered 401 by every
    route behind the check ([POST /webhook], [POST /extract-batch],
    [POST /extract]) and leaves everything as it was: no record, no
    result, no fetch, no reading of the clock. *)
Theorem rejected_request_changes_nothing (W : World)
        (handler : Request (number W) → jsstring →
                   M (State (number W)) (Response (number W)))
        (req : Request (number W)) (s : State (number W)) :
  (¬ ∃ t, request_token W req = Some (QStr t) ∧ t ≠ [] ∧
          is_Some (webhookTokens s !! t)) →
  (∃ answer, gated W handler req s = (Returned answer, s) ∧
             status answer = 401%Z ∧ success (json answer) = false) ∧
  (∃ answer, post_extract W req s = (Returned (inl answer), s) ∧
             status answer = 401%Z ∧ success (json answer) = false).
Proof.
  intros Hreject.
  pose proof (validateWebhookToken_cases W req s) as Hcases.
  unfold gated, post_extract, bind.
  destruct (validateWebhookToken W req s) as [[[answer|t]|e] s'] eqn:Hrun;
    [| |done].
  - destruct Hcases as (-> & [[_ ->]|[_ [_ ->]]]);
      split; eexists; (split; [reflexivity|done]).
  - destruct Hreject. apply validateWebhookToken_succeeds. eauto.
Qed.

Lemma rejected_request_changes_nothing_witness :
  ∃ answer, post_webhook frozen_world unknown_token_request
              (initial_state frozen_world)
            = (Returned answer, initial_state frozen_world) ∧
            status answer = 401%Z ∧ success (json answer) = false.
Proof.
  apply (rejected_request_changes_nothing frozen_world).
  intros (t & Htoken & _ & Hkey).
  injection Htoken as <-. vm_compute in Hkey. by destruct Hkey.
Defined.

(** X2.  On [POST /webhook] with an accepted token, one request is sent
    for every discovered URL, in order, and each carries the caller's
    token twice: as [Authorization: Bearer <token>] and as [X-API-Key]. *)
Theorem gated_webhook_forwards_token (W : World) (req : Request (number W))
        (s : State (number W)) (t : jsstring) :
  request_token W req = Some (QStr t) → t ≠ [] →
  is_Some (webhookTokens s !! t) →
  outbound (post_webhook W req s).2
  = outbound s ++
    ((λ u, {| out_url := JStr u;
              out_headers := [(lit "User-Agent", userAgent);
                              (lit "Authorization", lit "Bearer " ++ t);
                              (lit "X-API-Key", t)] |})
       <$> discoverUrls W (req_body req) (req_headers req)).
Proof.
  intros Htoken Hne Hkey.
  destruct (proj2 (validateWebhookToken_succeeds W req s))
    as (t' & s1 & Hrun); [by eauto|].
  pose proof (validateWebhookToken_cases W req s) as Hcases.
  rewrite Hrun in Hcases. destruct Hcases as (Ht' & _ & d & _ & Hs1).
  rewrite Htoken in Ht'. injection Ht' as <-.
  unfold post_webhook, gated, bind. rewrite Hrun, ingest_run. cbn [snd].
  destruct (extract_all_spec W (Some t)
              (discoverUrls W (req_body req) (req_headers req))
              (recorded W req s1)) as (_ & -> & _).
  rewrite Hs1. cbn [recorded outbound]. f_equal.
  unfold fetches, request_headers. by rewrite bool_decide_eq_false_2.
Qed.

Lemma gated_webhook_forwards_token_witness :
  out_headers <$> outbound (post_webhook frozen_world authorized_request
                              (initial_state frozen_world)).2
  = [ [(lit "User-Agent", userAgent);
       (lit "Authorization", lit "Bearer webhook-secret-2024");
       (lit "X-API-Key", lit "webhook-secret-2024")];
      [(lit "User-Agent", userAgent);
       (lit "Authorization", lit "Bearer webhook-secret-2024");
       (lit "X-API-Key", lit "webhook-secret-2024")] ].
Proof.
  rewrite (gated_webhook_forwards_token frozen_world authorized_request
             (initial_state frozen_world) defaultToken).
  - reflexivity.
  - reflexivity.
  - discriminate.
  - vm_compute. eauto.
Defined.

(** X3.  An ingestion always answers 200, and its answer agrees with the
    stores: [webhookId] and [timestamp] are those of the one record it
    appended, which holds the request as received; [urlsFound] is the
    number of results it appended to [extractedData] and the number of
    requests it sent; the results in the answer are those appended, or
    [null] when there is none.  The tokens are not touched. *)
Theorem ingest_answer_matches_stores (W : World) (credential : option jsstring)
        (msg : jsstring) (req : Request (number W)) (s : State (number W)) :
  ∃ record results s',
    ingest W credential msg req s
    = (Returned {| status := 200;
                   json := res_webhook msg (wh_id record) (wh_timestamp record)
                             (length results)
                             (match results with
                              | [] => None
                              | _ => Some results
                              end) |}, s') ∧
    webhookData s' = webhookData s ++ [record] ∧
    wh_headers record = req_headers req ∧ wh_body record = req_body req ∧
    wh_query record = req_query req ∧
    extractedData s' = extractedData s ++ results ∧
    length (outbound s') = (length (outbound s) + length results)%nat ∧
    length results
    = length (discoverUrls W (req_body req) (req_headers req)) ∧
    webhookTokens s' = webhookTokens s.
Proof.
  pose proof (extract_all_spec W credential
                (discoverUrls W (req_body req) (req_headers req))
                (recorded W req s))
    as (Hdata & Hout & Hwh & Htok & _ & _ & Hall).
  apply Forall2_length in Hall.
  set (all := extract_all W credential
                (discoverUrls W (req_body req) (req_headers req))
                (recorded W req s)) in *.
  exists (webhookPayload_of W req s), all.1, all.2.
  split; [rewrite ingest_run, <-Hall; reflexivity|].
  rewrite Hwh, Hdata, Hout, Htok, length_app. unfold fetches.
  rewrite length_fmap, Hall. done.
Qed.

(** ** The token routes *)

Lemma newToken_not_empty (now : Z) (suffix : jsstring) :
  newToken now suffix ≠ [].
Proof.
  unfold newToken. intros H. apply (f_equal length) in H.
  rewrite length_app in H. simpl in H. lia.
Qed.

(** X4.  The token that [POST /tokens] answers with is stored unused, and
    the next request that presents it passes the token check, which counts
    this first use and notes its time. *)
Theorem created_token_is_accepted (W : World) (req : Request (number W))
        (s s1 : State (number W)) (answer : Response (number W)) :
  create_token W req s = (Returned answer, s1) →
  ∃ token nm,
    status answer = 200%Z ∧
    json answer = res_token_created (lit "Token created successfully")
                    token nm ∧
    webhookTokens s1 !! token
    = Some {| name := nm; created := clock W (S (clock_reads s));
              lastUsed := None; usageCount := 0 |} ∧
    ∀ req' : Request (number W),
      request_token W req' = Some (QStr token) →
      ∃ s2 d, validateWebhookToken W req' s1 = (Returned (inr token), s2) ∧
              webhookTokens s2 !! token = Some d ∧ usageCount d = 1 ∧
              lastUsed d = Some (clock W (clock_reads s1)).
Proof.
  intros Hcreate.
  destruct (create_token_run W req s) as [[e He]|[nm Hnm]]; [congruence|].
  rewrite Hnm in Hcreate. injection Hcreate as <- Hs1.
  set (token := newToken (clock W (clock_reads s))
                         (random_suffix W (random W (random_draws s)))) in *.
  assert (webhookTokens s1 !! token
          = Some {| name := nm; created := clock W (S (clock_reads s));
                    lastUsed := None; usageCount := 0 |}) as Hstored.
  { rewrite <-Hs1. cbn [webhookTokens]. apply lookup_insert_eq. }
  exists token, nm. split; [done|]. split; [done|]. split; [done|].
  intros req' Htoken.
  pose proof (validateWebhookToken_cases W req' s1) as Hcases.
  destruct (proj2 (validateWebhookToken_succeeds W req' s1))
    as (t & s2 & Hrun).
  { exists token. split; [exact Htoken|]. split; [apply newToken_not_empty|].
    rewrite Hstored. eauto. }
  rewrite Hrun in Hcases. destruct Hcases as (Ht & _ & d & Hd & ->).
  rewrite Htoken in Ht. injection Ht as <-.
  rewrite Hstored in Hd. injection Hd as <-.
  eexists _, _. split; [exact Hrun|]. cbn [webhookTokens].
  rewrite lookup_insert_eq. done.
Qed.

Lemma created_token_is_accepted_witness :
  ∃ s2, validateWebhookToken frozen_world
          (request_with (lit "webhook-1700000000000-5"))
          (create_token frozen_world token_request
             (initial_state frozen_world)).2
        = (Returned (inr (lit "webhook-1700000000000-5")), s2).
Proof.
  destruct (created_token_is_accepted frozen_world token_request
              (initial_state frozen_world) _ _ eq_refl)
    as (token & nm & _ & Hanswer & _ & Haccepted).
  injection Hanswer as <- _.
  destruct (Haccepted (request_with (lit "webhook-1700000000000-5")) eq_refl)
    as (s2 & d & Hrun & _).
  exists s2. exact Hrun.
Defined.

(** X5.  [DELETE /tokens/:token] on a key removes that entry and no other,
    and from then on a request that presents the token is answered
    [Invalid webhook token]; on a string that is not a key it answers 404
    and changes nothing. *)
Theorem deleted_token_is_rejected (W : World) (token : jsstring)
        (s : State (number W)) :
  (is_Some (webhookTokens s !! token) → token ≠ [] →
   ∃ s', delete_token W token s
         = (Returned {| status := 200;
                        json := res_done (lit "Token deleted successfully") |},
            s') ∧
     webhookTokens s' !! token = None ∧
     (∀ t, t ≠ token → webhookTokens s' !! t = webhookTokens s !! t) ∧
     webhookData s' = webhookData s ∧ extractedData s' = extractedData s ∧
     ∀ req : Request (number W),
       request_token W req = Some (QStr token) →
       validateWebhookToken W req s' = (Returned (inl (token_invalid W)), s')) ∧
  (webhookTokens s !! token = None →
   delete_token W token s
   = (Returned {| status := 404; json := res_failure (lit "Token not found") |},
      s)).
Proof.
  unfold delete_token, bind, get_webhookTokens, set_webhookTokens. cbn [ret].
  split.
  - intros [d Hd] Hne. rewrite Hd. unfold ret. eexists. split; [reflexivity|].
    cbn [webhookTokens webhookData extractedData].
    rewrite lookup_delete_eq. split; [done|].
    split; [by intros t Ht; rewrite lookup_delete_ne|].
    split; [done|]. split; [done|]. intros req Htoken.
    unfold validateWebhookToken. rewrite Htoken.
    apply q_truthy_QStr in Hne. rewrite Hne. cbn [negb].
    unfold bind, get_webhookTokens, Map_get. cbn [webhookTokens].
    by rewrite lookup_delete_eq.
  - by intros ->.
Qed.

Lemma deleted_token_is_rejected_witness :
  validateWebhookToken frozen_world authorized_request
    (delete_token frozen_world defaultToken (initial_state frozen_world)).2
  = (Returned (inl (token_invalid frozen_world)),
     (delete_token frozen_world defaultToken (initial_state frozen_world)).2).
Proof.
  destruct (deleted_token_is_rejected frozen_world defaultToken
              (initial_state frozen_world)) as [Hdeleted _].
  destruct Hdeleted as (s' & Hrun & _ & _ & _ & _ & Hrejected).
  - vm_compute. eauto.
  - discriminate.
  - rewrite Hrun. cbn [snd]. by apply Hrejected.
Defined.

(** X6.  Whatever calls were served, every key of the token store shows in
    the listing of [GET /tokens] as the same text, [webhook-...]: the eight
    units kept by the preview are the prefix that the default token and
    all created tokens share. *)
Theorem stored_tokens_preview_alike (W : World) (cs : list (Call W))
        (token : jsstring) :
  is_Some (webhookTokens (run W cs (initial_state W)) !! token) →
  token_preview token = lit "webhook-...".
Proof.
  intros Hkey.
  destruct (run_invariant W (tokens_have_origin W) (tokens_have_origin_step W)
              cs (initial_state W) (initial_tokens W) token Hkey)
    as [-> | (k & j & ->)]; [done|].
  unfold token_preview, newToken. by rewrite take_app_length'.
Qed.

Lemma stored_tokens_preview_alike_witness :
  token_preview defaultToken = lit "webhook-...".
Proof.
  apply (stored_tokens_preview_alike frozen_world [] defaultToken).
  vm_compute. eauto.
Defined.

Lemma run_preserves (W : World) (P : State (number W) → Prop) :
  (∀ c s, P s → P (serve W c s).2) → ∀ cs s, P s → P (run W cs s).
Proof.
  intros Hstep cs. induction cs as [|c cs IH]; intros s Hs; [done|].
  rewrite run_cons. auto.
Qed.

Lemma ingest_tokens (W : World) (credential : option jsstring)
      (msg : jsstring) (req : Request (number W)) (s : State (number W)) :
  webhookTokens (ingest W credential msg req s).2 = webhookTokens s.
Proof.
  rewrite ingest_run. cbn [snd].
  by destruct (extract_all_spec W credential
                 (discoverUrls W (req_body req) (req_headers req))
                 (recorded W req s)) as (_ & _ & _ & -> & _).
Qed.

Lemma gated_consistent (W : World)
      (handler : Request (number W) → jsstring →
                 M (State (number W)) (Response (number W)))
      (req : Request (number W)) (s : State (number W)) :
  (∀ t s1, webhookTokens (handler req t s1).2 = webhookTokens s1) →
  tokens_consistent s → tokens_consistent (gated W handler req s).2.
Proof.
  intros Hhandler Hs.
  pose proof (validateWebhookToken_cases W req s) as Hcases.
  unfold gated, bind.
  destruct (validateWebhookToken W req s) as [[[answer|t]|e] s1];
    cbn [snd]; [by destruct Hcases as [-> _]| |done].
  destruct Hcases as (_ & _ & d & Hd & ->).
  intros token d'. rewrite Hhandler. cbn [webhookTokens].
  destruct (decide (t = token)) as [<-|Hne].
  - rewrite lookup_insert_eq. intros [= <-]. cbn. split; [done|lia].
  - rewrite lookup_insert_ne by done. apply Hs.
Qed.

Lemma serve_consistent (W : World) (c : Call W) (s : State (number W)) :
  tokens_consistent s → tokens_consistent (serve W c s).2.
Proof.
  intros Hs. unfold serve. rewrite error_middleware_state.
  destruct c as [req|req|req|req|token| |].
  - apply gated_consistent; [|done]. intros t s1. apply ingest_tokens.
  - intros token d. unfold post_webhook_public. rewrite ingest_tokens.
    apply Hs.
  - apply gated_consistent; [|done]. intros t s1.
    by destruct (extract_batch_frame W req t s1) as (_ & -> & _).
  - destruct (create_token_run W req s) as [[e ->]|[nm ->]]; [done|].
    intros token d. cbn [snd webhookTokens].
    destruct (decide (newToken (clock W (clock_reads s))
                        (random_suffix W (random W (random_draws s))) = token))
      as [<-|Hne].
    + rewrite lookup_insert_eq. by intros [= <-].
    + rewrite lookup_insert_ne by done. apply Hs.
  - unfold delete_token, bind, get_webhookTokens, set_webhookTokens.
    cbn [ret]. destruct (webhookTokens s !! token); [|done].
    intros token' d. unfold ret. cbn [snd webhookTokens].
    intros [_ Hd]%lookup_delete_Some. by apply (Hs token').
  - done.
  - done.
Qed.

(** X7.  Whatever calls were served, a stored token has no last-used
    time exactly when its usage count is zero. *)
Theorem unused_tokens_count_zero (W : World) (cs : list (Call W))
        (token : jsstring) (d : TokenData (number W)) :
  webhookTokens (run W cs (initial_state W)) !! token = Some d →
  lastUsed d = None ↔ usageCount d = 0.
Proof.
  apply (run_preserves W tokens_consistent (serve_consistent W)).
  intros t d' Hd. unfold initial_state in Hd. cbn in Hd.
  apply lookup_singleton_Some in Hd as [_ <-]. done.
Qed.

Lemma unused_tokens_count_zero_witness :
  ∃ d, webhookTokens (run frozen_world [create_a_token]
                          (initial_state frozen_world)) !! defaultToken
       = Some d ∧ usageCount d = 0.
Proof.
  eexists. split; [vm_compute; reflexivity|].
  eapply (unused_tokens_count_zero frozen_world [create_a_token] defaultToken).
  - vm_compute. reflexivity.
  - reflexivity.
Defined.

(** ** The store of extraction results *)

Global Instance grows_preorder {number} : PreOrder (@grows number).
Proof.
  split.
  - intros s. unfold grows. done.
  - intros a b c Hab Hbc. unfold grows in *. by etrans.
Qed.

(** Closes [respects grows m] for a primitive [m]. *)
Ltac grows_primitive :=
  intros ?; unfold grows; cbn; first [done | by apply prefix_app_r].

Lemma Date_now_grows (W : World) : respects grows (Date_now W).
Proof. grows_primitive. Qed.
Lemma Math_random_grows (W : World) : respects grows (Math_random W).
Proof. grows_primitive. Qed.
Lemma axios_get_grows (W : World) (url : JsValue (number W))
      (headers : list (jsstring * jsstring)) :
  respects grows (axios_get W url headers).
Proof. grows_primitive. Qed.
Lemma webhookData_push_grows (W : World) (r : WebhookRecord (number W)) :
  respects grows (webhookData_push W r).
Proof. grows_primitive. Qed.
Lemma extractedData_push_grows (W : World) (c : ExtractedContent (number W)) :
  respects grows (extractedData_push W c).
Proof. grows_primitive. Qed.
Lemma set_webhookTokens_grows (W : World)
      (f : gmap jsstring (TokenData (number W)) →
           gmap jsstring (TokenData (number W))) :
  respects grows (set_webhookTokens W f).
Proof. grows_primitive. Qed.
Lemma get_webhookTokens_grows (W : World) :
  respects grows (get_webhookTokens W).
Proof. grows_primitive. Qed.

(** Decomposes [respects grows m] down to the primitives. *)
Ltac grows_handler :=
  repeat first
    [ apply Date_now_grows | apply Math_random_grows | apply axios_get_grows
    | apply webhookData_push_grows | apply extractedData_push_grows
    | apply set_webhookTokens_grows | apply get_webhookTokens_grows
    | apply console_template_respects; apply _
    | apply display_respects; apply _
    | respects_step ].

Lemma extractDataFromUrl_grows (W : World) (url : JsValue (number W))
      (token : option jsstring) :
  respects grows (extractDataFromUrl W url token).
Proof. unfold extractDataFromUrl, cheerio_load. grows_handler. Qed.

Lemma validateWebhookToken_grows (W : World) (req : Request (number W)) :
  respects grows (validateWebhookToken W req).
Proof. unfold validateWebhookToken. grows_handler. Qed.

Lemma ingest_grows (W : World) (credential : option jsstring) (msg : jsstring)
      (req : Request (number W)) :
  respects grows (ingest W credential msg req).
Proof.
  unfold ingest, ingest_round.
  repeat first [ apply extractDataFromUrl_grows | grows_handler ].
Qed.

Lemma extract_batch_grows (W : World) (req : Request (number W))
      (webhookToken : jsstring) :
  respects grows (extract_batch W req webhookToken).
Proof.
  unfold extract_batch, batch_round, destructure.
  repeat first [ apply extractDataFromUrl_grows | grows_handler ].
Qed.

Lemma gated_grows (W : World)
      (handler : Request (number W) → jsstring →
                 M (State (number W)) (Response (number W)))
      (req : Request (number W)) :
  (∀ t, respects grows (handler req t)) → respects grows (gated W handler req).
Proof.
  intros Hhandler. unfold gated.
  repeat first [ apply validateWebhookToken_grows | apply Hhandler
               | grows_handler ].
Qed.

Lemma serve_grows (W : World) (c : Call W) (s : State (number W)) :
  match c with
  | DELETE_extracted => extractedData (serve W c s).2 = []
  | _ => extractedData s `prefix_of` extractedData (serve W c s).2
  end.
Proof.
  unfold serve. rewrite error_middleware_state.
  destruct c as [req|req|req|req|token| |]; try done.
  - apply gated_grows. intros t. apply ingest_grows.
  - apply ingest_grows.
  - apply gated_grows. intros t. apply extract_batch_grows.
  - revert s. change (respects grows (create_token W req)).
    unfold create_token, destructure. grows_handler.
  - revert s. change (respects grows (delete_token W token)).
    unfold delete_token. grows_handler.
Qed.

Lemma stores_grows (W : World) :
  respects grows (stores (S := State (number W))).
Proof. grows_primitive. Qed.

Lemma post_extract_grows (W : World) (req : Request (number W)) :
  respects grows (post_extract W req).
Proof.
  unfold post_extract, extract_one, destructure.
  repeat first [ apply validateWebhookToken_grows
               | apply extractDataFromUrl_grows | grows_handler ].
Qed.

(** X8.  The store of extraction results is append-only.  Whatever one of
    the routes [POST /webhook], [POST /webhook-public], [POST /extract],
    [POST /extract-batch], [POST /tokens], [DELETE /tokens/:token],
    [DELETE /webhooks], [GET /], [GET /webhooks], [GET /webhook/:id] and
    [GET /extracted] does, the results stored before it are still there,
    in the same places, afterwards; [DELETE /extracted] removes results,
    and it removes all of them. *)
Theorem extractedData_append_only (W : World) (r : Route W)
        (s : State (number W)) :
  match r with
  | changing DELETE_extracted => extractedData (route W r s).2 = []
  | _ => extractedData s `prefix_of` extractedData (route W r s).2
  end.
Proof.
  destruct r as [c|req| | |webhookId|].
  - pose proof (serve_grows W c s) as Hc.
    assert ((route W (changing c) s).2 = (serve W c s).2) as ->.
    { unfold route, bind. by destruct (serve W c s) as [[answer|e] s1]. }
    by destruct c.
  - apply post_extract_grows.
  - revert s. change (respects grows (route W GET_root)).
    unfold route, health. repeat first [apply stores_grows | grows_handler].
  - revert s. change (respects grows (route W GET_webhooks)).
    unfold route, get_webhooks.
    repeat first [apply stores_grows | grows_handler].
  - revert s. change (respects grows (route W (GET_webhook webhookId))).
    unfold route, get_webhook.
    repeat first [apply stores_grows | grows_handler].
  - revert s. change (respects grows (route W GET_extracted)).
    unfold route, get_extracted.
    repeat first [apply stores_grows | grows_handler].
Qed.

(** ** Extraction on demand *)

Lemma display_unprintable (W : World) {S : Type} (url : jsstring)
      (c : ExtractedContent (number W)) (s : S) :
  ¬ printable c → ∃ e, display W (JStr url) c s = (Thrown e, s).
Proof.
  unfold display, console_template, bind. cbn [ToString_throws ret].
  destruct c as [| |[]| |]; cbn; intros Hc; try (by destruct Hc); eauto.
Qed.

(** X9.  [POST /extract] without a usable [url] (the property is missing,
    or is a value that counts as false, such as the empty string) answers
    400 [URL is required]; nothing is fetched and nothing is stored. *)
Theorem extract_one_requires_url (W : World) (req : Request (number W))
        (webhookToken : jsstring) (s : State (number W))
        (body : JsValue (number W)) :
  req_body req = Some body → body ≠ JNull →
  (∀ url, match body with
          | JObj props => own_property (lit "url") props
          | _ => None
          end = Some url → truthy W url = false) →
  extract_one W req webhookToken s
  = (Returned {| reply_status := 400;
                 reply_json := rd_failure (lit "URL is required") |}, s).
Proof.
  intros Hbody Hnull Hurl.
  unfold extract_one, try_catch, bind, destructure. rewrite Hbody.
  destruct body as [| | | | |props]; try done. cbn [ret].
  destruct (own_property (lit "url") props) as [url|]; [|done].
  by rewrite (Hurl url eq_refl).
Qed.

Lemma extract_one_requires_url_witness :
  extract_one frozen_world extract_nothing defaultToken
    (initial_state frozen_world)
  = (Returned {| reply_status := 400;
                 reply_json := rd_failure (lit "URL is required") |},
     initial_state frozen_world).
Proof.
  eapply (extract_one_requires_url frozen_world extract_nothing);
    [reflexivity|discriminate|].
  intros url [= <-]. reflexivity.
Defined.

(** X10.  [POST /extract] on a URL string sends one request, with the
    caller's token, and stores the result before it answers.  The answer
    is 200 with that result, unless the result is a [text] whose content
    is not a string: printing it throws, the answer is 500, and the result
    stays in [extractedData] all the same. *)
Theorem extract_one_stores_before_answering (W : World)
        (req : Request (number W)) (webhookToken : jsstring)
        (s : State (number W)) (props : list (jsstring * JsValue (number W)))
        (url : jsstring) :
  req_body req = Some (JObj props) →
  own_property (lit "url") props = Some (JStr url) → url ≠ [] →
  let sent := after_fetch s (JStr url) (request_headers (Some webhookToken)) in
  ∃ c, extractDataFromUrl W (JStr url) (Some webhookToken) s
       = (Returned c, sent) ∧
    (extract_one W req webhookToken s).2 = after_push sent c ∧
    (printable c →
     (extract_one W req webhookToken s).1
     = Returned {| reply_status := 200;
                   reply_json := rd_extracted
                                   (lit "Data extracted successfully") c |}) ∧
    (¬ printable c →
     ∃ err, (extract_one W req webhookToken s).1
            = Returned {| reply_status := 500;
                          reply_json := rd_internal_error
                                          (lit "Internal server error") err |}).
Proof.
  intros Hbody Hurl Hne sent.
  destruct (extractDataFromUrl_run W (JStr url) (Some webhookToken) s eq_refl)
    as (c & Hrun & _).
  exists c. split; [exact Hrun|].
  assert (truthy W (JStr url) = true) as Htrue.
  { cbn. by rewrite bool_decide_eq_false_2. }
  assert (∀ r, display W (JStr url) c (after_push sent c)
               = (r, after_push sent c) →
               extract_one W req webhookToken s
               = (match r with
                  | Returned _ =>
                      Returned {| reply_status := 200;
                                  reply_json :=
                                    rd_extracted
                                      (lit "Data extracted successfully") c |}
                  | Thrown e =>
                      Returned {| reply_status := 500;
                                  reply_json :=
                                    rd_internal_error
                                      (lit "Internal server error")
                                      (message e) |}
                  end, after_push sent c)) as Hanswer.
  { intros r Hr. unfold extract_one, try_catch, bind, destructure.
    rewrite Hbody. cbn [ret]. rewrite Hurl, Htrue.
    unfold console_template. cbn [ToString_throws ret].
    rewrite Hrun. unfold extractedData_push. fold sent.
    fold (after_push sent c). rewrite Hr. by destruct r. }
  assert (printable c ∨ ¬ printable c) as [Hc|Hc].
  { destruct c as [| |[]| |]; cbn; auto. }
  - rewrite (Hanswer _ (display_printable W url c _ Hc)).
    split; [done|]. split; [done|]. by intros [].
  - destruct (display_unprintable W url c (after_push sent c) Hc) as [e He].
    rewrite (Hanswer _ He). split; [done|]. split; [done|]. eauto.
Qed.

Lemma extract_one_stores_before_answering_witness :
  (extract_one number_page_world extract_request defaultToken
     (initial_state number_page_world)).1
  = Returned
      {| reply_status := 500;
         reply_json :=
           rd_internal_error (lit "Internal server error")
             (lit "extractedContent.content.substring is not a function") |} ∧
  extractedData (extract_one number_page_world extract_request defaultToken
                   (initial_state number_page_world)).2
  = [ec_text (JNum 42%Z) (JStr (lit "http://h/n")) 1700000000001%Z].
Proof.
  destruct (extract_one_stores_before_answering number_page_world
              extract_request defaultToken (initial_state number_page_world)
              [(lit "url", JStr (lit "http://h/n"))] (lit "http://h/n")
              eq_refl eq_refl ltac:(discriminate))
    as (c & Hrun & Hstate & _ & Hthrows).
  injection Hrun as <-. rewrite Hstate.
  destruct Hthrows as [err Herr]; [by intros []|]. split; [|reflexivity].
  rewrite Herr. vm_compute in Herr. injection Herr as <-. reflexivity.
Defined.

(** ** Batch extraction, continued *)

Lemma extractDataFromUrl_url_of (W : World) (url : jsstring)
      (token : option jsstring) (s s' : State (number W))
      (c : ExtractedContent (number W)) :
  extractDataFromUrl W (JStr url) token s = (Returned c, s') →
  url_of c = JStr url.
Proof.
  intros Hc.
  destruct (extractDataFromUrl_run W (JStr url) token s eq_refl)
    as (c' & Hrun & Hshape).
  rewrite Hc in Hrun. injection Hrun as <- _.
  cbn zeta in Hshape. repeat case_match; by rewrite Hshape.
Qed.

(** When the transport hands back strings only, every result prints. *)
Lemma string_bodies_printable (W : World) (url : jsstring)
      (token : option jsstring) (s s' : State (number W))
      (c : ExtractedContent (number W)) :
  (∀ k u h r, network W k u h = Returned r → ∃ text, data r = JStr text) →
  extractDataFromUrl W (JStr url) token s = (Returned c, s') →
  printable c.
Proof.
  intros Hstrings Hc.
  destruct (extractDataFromUrl_run W (JStr url) token s eq_refl)
    as (c' & Hrun & Hshape).
  rewrite Hc in Hrun. injection Hrun as <- _.
  destruct (network W _ _ _) as [r|e] eqn:Hnet; [|by rewrite Hshape].
  destruct (Hstrings _ _ _ _ Hnet) as [text Htext].
  cbn zeta in Hshape. rewrite Htext in Hshape.
  repeat case_match; by rewrite Hshape.
Qed.

(** The [i]-th result of the loop is the extractor's for the [i]-th URL,
    called when [i] requests more have been sent and the clock has been
    read [i] times more. *)
Lemma extract_all_lookup (W : World) (credential : option jsstring)
      (urls : list jsstring) (s : State (number W)) (i : nat) (u : jsstring)
      (c : ExtractedContent (number W)) :
  urls !! i = Some u → (extract_all W credential urls s).1 !! i = Some c →
  ∃ si, length (outbound si) = (length (outbound s) + i)%nat ∧
        clock_reads si = (clock_reads s + i)%nat ∧
        extractDataFromUrl W (JStr u) credential si
        = (Returned c, after_fetch si (JStr u) (request_headers credential)).
Proof.
  revert s i. induction urls as [|url urls IH]; intros s i Hu Hc; [done|].
  destruct (extractDataFromUrl_run W (JStr url) credential s eq_refl)
    as (c0 & Hrun & _).
  cbn [extract_all] in Hc. rewrite Hrun in Hc.
  specialize (IH (after_push (after_fetch s (JStr url)
                                          (request_headers credential)) c0)).
  destruct (extract_all W credential urls _) as [cs s2]. cbn [fst] in *.
  destruct i as [|i]; cbn in Hu, Hc.
  - simplify_eq. exists s. by rewrite !Nat.add_0_r.
  - destruct (IH i Hu Hc) as (si & Hsent & Hclock & Hsi).
    exists si. cbn [after_push after_fetch outbound clock_reads] in *.
    rewrite length_app in Hsent. cbn in Hsent. split; [lia|]. split; [lia|done].
Qed.

(** X11.  When the transport hands back strings only (or fails), a batch of
    [N] URL strings is answered 200 with exactly [N] results, the [i]-th
    being the result for the [i]-th URL; a URL whose fetch fails, the
    [i]-th request of the batch, has the [error] result with the message
    of the failure and the time of the [i]-th reading of the clock.  The
    same results are appended to [extractedData] in that order, and one
    request per URL is sent with the caller's token. *)
Theorem batch_answers_in_order (W : World) (req : Request (number W))
        (webhookToken : jsstring) (s : State (number W))
        (props : list (jsstring * JsValue (number W))) (urls : list jsstring) :
  (∀ k u h r, network W k u h = Returned r → ∃ text, data r = JStr text) →
  req_body req = Some (JObj props) →
  own_property (lit "urls") props = Some (JArr (JStr <$> urls)) →
  ∃ msg results s',
    extract_batch W req webhookToken s
    = (Returned {| status := 200; json := res_batch msg results |}, s') ∧
    length results = length urls ∧
    Forall2 (λ u c, url_of c = JStr u) urls results ∧
    (∀ i u c e,
       urls !! i = Some u → results !! i = Some c →
       network W (length (outbound s) + i) (JStr u)
               (request_headers (Some webhookToken)) = Thrown e →
       c = ec_error (message e) (JStr u) (clock W (clock_reads s + i))) ∧
    extractedData s' = extractedData s ++ results ∧
    outbound s' = outbound s ++ fetches (Some webhookToken) urls.
Proof.
  intros Hstrings Hbody Hurls.
  pose proof (extract_all_spec W (Some webhookToken) urls s)
    as (Hdata & Hout & _ & _ & _ & _ & Hall).
  assert (Forall printable (extract_all W (Some webhookToken) urls s).1)
    as Hprintable.
  { eapply Forall2_Forall_r; [exact Hall|]. apply Forall_forall.
    intros u _ c (si & Hc). by eapply string_bodies_printable. }
  eexists _, _, _.
  split; [by apply extract_batch_in_order with (props := props)|].
  split; [symmetry; by eapply Forall2_length|].
  split; [|split; [|done]].
  - eapply Forall2_impl; [exact Hall|]. intros u c (si & Hc).
    by eapply extractDataFromUrl_url_of.
  - intros i u c e Hu Hc Hfail.
    destruct (extract_all_lookup W _ _ _ _ _ _ Hu Hc)
      as (si & Hsent & Hclock & Hsi).
    destruct (extractDataFromUrl_run W (JStr u) (Some webhookToken) si eq_refl)
      as (c' & Hrun & Hshape).
    rewrite Hsi in Hrun. injection Hrun as <-.
    rewrite Hsent, Hfail, Hclock in Hshape. exact Hshape.
Qed.

Lemma batch_answers_in_order_witness :
  ∃ msg s',
    extract_batch mixed_world two_url_batch defaultToken
      (initial_state mixed_world)
    = (Returned
         {| status := 200;
            json := res_batch msg
                      [ec_error (lit "connect ECONNREFUSED 127.0.0.1:80")
                                (JStr (lit "http://h/1")) 1700000000001%Z;
                       ec_text (JStr (lit "hello"))
                               (JStr (lit "http://h/2")) 1700000000002%Z] |},
       s').
Proof.
  destruct (batch_answers_in_order mixed_world two_url_batch defaultToken
              (initial_state mixed_world)
              [(lit "urls", JArr (JStr <$> [lit "http://h/1"; lit "http://h/2"]))]
              [lit "http://h/1"; lit "http://h/2"])
    as (msg & results & s' & Hrun & _).
  - intros k u h r. unfold mixed_world, mock, network, second_answers.
    destruct u; try discriminate. case_bool_decide; [|discriminate].
    intros [= <-]. by eexists.
  - reflexivity.
  - reflexivity.
  - exists msg, s'. rewrite Hrun. vm_compute in Hrun.
    injection Hrun as <- <- <-. reflexivity.
Defined.

Lemma extract_batch_requires_list_witness :
  extract_batch frozen_world urls_not_a_list defaultToken
    (initial_state frozen_world)
  = (Returned {| status := 400;
                 json := res_failure (lit "URLs array is required") |},
     initial_state frozen_world).
Proof.
  eapply (extract_batch_requires_list frozen_world urls_not_a_list);
    [reflexivity|discriminate|].
  intros items. discriminate.
Defined.

(** ** Looking a webhook up *)

Lemma find_first {A} (p : A → bool) (l : list A) :
  (∃ pre x post, l = pre ++ x :: post ∧ p x = true ∧
                 Forall (λ y, p y = false) pre ∧ find p l = Some x) ∨
  (Forall (λ y, p y = false) l ∧ find p l = None).
Proof.
  induction l as [|y l IH]; [by right|]. cbn [find].
  destruct (p y) eqn:Hy.
  - left. by exists [], y, l.
  - destruct IH as [(pre & x & post & -> & Hx & Hpre & Hfind)|[Hall Hfind]].
    + left. exists (y :: pre), x, post.
      split; [done|]. split; [done|]. split; [by constructor|done].
    + right. split; [by constructor|done].
Qed.

Lemma get_webhook_cases (W : World) (webhookId : jsstring)
      (s : State (number W)) :
  (∃ pre w post,
     webhookData s = pre ++ w :: post ∧ wh_id w = webhookId ∧
     none_has_id webhookId pre ∧
     get_webhook W webhookId s
     = (Returned {| reply_status := 200; reply_json := rd_webhook w |}, s)) ∨
  (none_has_id webhookId (webhookData s) ∧
   get_webhook W webhookId s
   = (Returned {| reply_status := 404;
                  reply_json := rd_failure (lit "Webhook not found") |}, s)).
Proof.
  unfold get_webhook, bind, stores, none_has_id.
  destruct (find_first (λ w, bool_decide (wh_id w = webhookId))
                       (webhookData s))
    as [(pre & w & post & Hsplit & Hw & Hpre & ->)|[Hall ->]].
  - left. exists pre, w, post.
    apply bool_decide_eq_true in Hw. repeat split; auto.
    eapply Forall_impl; [exact Hpre|]. intros y.
    by rewrite bool_decide_eq_false.
  - right. split; [|done].
    eapply Forall_impl; [exact Hall|]. intros y.
    by rewrite bool_decide_eq_false.
Qed.

(** X13.  [GET /webhook/:id] changes nothing and answers with the first
    stored record that has the id, whatever comes after it (a later record
    with the same id is never returned); it answers 404 exactly when no
    stored record has the id. *)
Theorem get_webhook_finds_first (W : World) (webhookId : jsstring)
        (s : State (number W)) :
  (get_webhook W webhookId s).2 = s ∧
  ((∃ pre w post,
      webhookData s = pre ++ w :: post ∧ wh_id w = webhookId ∧
      none_has_id webhookId pre ∧
      (get_webhook W webhookId s).1
      = Returned {| reply_status := 200; reply_json := rd_webhook w |}) ∨
   (none_has_id webhookId (webhookData s) ∧
    (get_webhook W webhookId s).1
    = Returned {| reply_status := 404;
                  reply_json := rd_failure (lit "Webhook not found") |})).
Proof.
  destruct (get_webhook_cases W webhookId s)
    as [(pre & w & post & Hsplit & Hw & Hpre & Hget)|[Hnone Hget]];
    rewrite Hget; (split; [done|]).
  - left. by exists pre, w, post.
  - by right.
Qed.

(** X14.  Right after an ingestion, looking up the [webhookId] of its
    answer finds a record with that id.  It is the record just stored when
    no earlier record had the id; when an earlier record has it (two
    webhooks within one millisecond), the earlier one is found and the new
    record cannot be reached by its id. *)
Theorem stored_webhook_found_by_id (W : World) (credential : option jsstring)
        (msg : jsstring) (req : Request (number W)) (s : State (number W)) :
  let webhookId := Number_toString (clock W (clock_reads s)) in
  let s' := (ingest W credential msg req s).2 in
  ∃ w, (get_webhook W webhookId s').1
       = Returned {| reply_status := 200; reply_json := rd_webhook w |} ∧
       wh_id w = webhookId ∧
       (none_has_id webhookId (webhookData s) →
        w = webhookPayload_of W req s) ∧
       (¬ none_has_id webhookId (webhookData s) → w ∈ webhookData s).
Proof.
  intros webhookId s'.
  assert (webhookData s' = webhookData s ++ [webhookPayload_of W req s])
    as Hstored.
  { unfold s'. rewrite ingest_run. cbn [snd].
    by destruct (extract_all_spec W credential
                   (discoverUrls W (req_body req) (req_headers req))
                   (recorded W req s)) as (_ & _ & -> & _). }
  destruct (get_webhook_cases W webhookId s')
    as [(pre & w & post & Hsplit & Hw & Hpre & Hget)|[Hnone _]].
  - exists w. split; [by rewrite Hget|]. split; [done|].
    rewrite Hstored in Hsplit. unfold none_has_id in *.
    destruct post as [|w' post _] using rev_ind.
    + apply app_inj_tail in Hsplit as [<- <-]. split; [done|].
      intros Hsome. by destruct Hsome.
    + rewrite app_comm_cons, app_assoc in Hsplit.
      apply app_inj_tail in Hsplit as [-> _]. split.
      * intros Hnone. apply Forall_app in Hnone as [_ Hnone].
        apply Forall_cons in Hnone as [Hnone _]. by destruct Hnone.
      * intros _. apply elem_of_app. right. by left.
  - unfold none_has_id in Hnone. rewrite Hstored in Hnone.
    apply Forall_app in Hnone as [_ Hnone].
    apply Forall_cons in Hnone as [Hnone _]. by destruct Hnone.
Qed.

(** ** Answers *)

Lemma extract_batch_answers (W : World) (req : Request (number W))
      (webhookToken : jsstring) (s : State (number W)) :
  ∃ answer, (extract_batch W req webhookToken s).1 = Returned answer ∧
            envelope answer.
Proof.
  unfold extract_batch, try_catch.
  match goal with
  | |- context [bind ?m ?k s] => destruct (bind m k s) as [[answer|e] s1] eqn:Hbody
  end.
  - exists answer. split; [done|]. unfold bind in Hbody.
    destruct (destructure W "urls" (req_body req) s) as [[urls|e] s0];
      [|done].
    assert (answer = {| status := 400;
                        json := res_failure (lit "URLs array is required") |}
            → envelope answer) as Hbad.
    { intros ->. right. cbn. split; [set_solver|done]. }
    destruct urls as [[| | | |urls|]|]; try (injection Hbody as <- _; auto).
    destruct (with_local _ _ s0) as [[[u results]|e] s2]; [|done].
    injection Hbody as <- _. by left.
  - eexists. split; [reflexivity|]. right. cbn. split; [set_solver|done].
Qed.

Lemma gated_answers (W : World)
      (handler : Request (number W) → jsstring →
                 M (State (number W)) (Response (number W)))
      (req : Request (number W)) (s : State (number W)) :
  (∀ t s1, ∃ answer, (handler req t s1).1 = Returned answer ∧
                     envelope answer) →
  ∃ answer, (gated W handler req s).1 = Returned answer ∧ envelope answer.
Proof.
  intros Hhandler.
  pose proof (validateWebhookToken_cases W req s) as Hcases.
  unfold gated, bind.
  destruct (validateWebhookToken W req s) as [[[answer|t]|e] s1];
    [|apply Hhandler|done].
  exists answer. split; [done|]. right.
  destruct Hcases as (_ & [[_ ->]|[_ [_ ->]]]); cbn; (split; [set_solver|done]).
Qed.

Lemma serve_answers (W : World) (c : Call W) (s : State (number W)) :
  ∃ answer, (serve W c s).1 = Returned answer ∧ envelope answer.
Proof.
  assert (∀ m : M (State (number W)) (Response (number W)),
            (∃ answer, (m s).1 = Returned answer ∧ envelope answer) →
            ∃ answer, (error_middleware W m s).1 = Returned answer ∧
                      envelope answer) as Hmiddle.
  { intros m (answer & Hm & Hok). unfold error_middleware, try_catch.
    destruct (m s) as [[a|e] s1]; [|done]. by exists answer. }
  assert (∀ credential msg req s1,
            ∃ answer, (ingest W credential msg req s1).1 = Returned answer ∧
                      envelope answer) as Hingest.
  { intros. rewrite ingest_run. eexists. split; [reflexivity|]. by left. }
  unfold serve. destruct c as [req|req|req|req|token| |].
  - apply Hmiddle, gated_answers. intros t s1. apply Hingest.
  - apply Hmiddle, Hingest.
  - apply Hmiddle, gated_answers. intros t s1. apply extract_batch_answers.
  - unfold error_middleware, try_catch.
    destruct (create_token_run W req s) as [[e ->]|[nm ->]];
      eexists; (split; [reflexivity|]); cbn;
      [right; split; [set_solver|done] | by left].
  - apply Hmiddle. unfold delete_token, bind, get_webhookTokens,
      set_webhookTokens. cbn [ret].
    destruct (webhookTokens s !! token); eexists; (split; [reflexivity|]);
      cbn; [by left | right; split; [set_solver|done]].
  - apply Hmiddle. eexists. split; [reflexivity|]. by left.
  - apply Hmiddle. eexists. split; [reflexivity|]. by left.
Qed.

(** The handler of [POST /extract] answers whatever happens in it. *)
Lemma extract_one_answers (W : World) (req : Request (number W))
      (webhookToken : jsstring) (s : State (number W)) :
  ∃ reply, (extract_one W req webhookToken s).1 = Returned reply ∧
    match reply_success W (reply_json reply) with
    | Some true => reply_status reply = 200%Z
    | Some false => reply_status reply ∈ [400; 404; 500]%Z
    | None => False
    end.
Proof.
  unfold extract_one, try_catch.
  match goal with
  | |- context [bind ?m ?k s] => destruct (bind m k s) as [[reply|e] s1] eqn:Hbody
  end.
  - exists reply. split; [done|]. unfold bind in Hbody.
    destruct (destructure W "url" (req_body req) s) as [[url|e0] s0]; [|done].
    destruct url as [url|]; [destruct (truthy W url)|];
      [|injection Hbody as <- _; cbn; set_solver ..].
    repeat match type of Hbody with
           | context [match ?x with _ => _ end] => destruct x as [[?|?] ?]
           end; try done.
    injection Hbody as <- _. done.
  - eexists. split; [reflexivity|]. cbn. set_solver.
Qed.

(** X15.  Each of the routes [POST /webhook], [POST /webhook-public],
    [POST /extract], [POST /extract-batch], [POST /tokens],
    [DELETE /tokens/:token], [DELETE /webhooks], [DELETE /extracted],
    [GET /], [GET /webhooks], [GET /webhook/:id] and [GET /extracted] is
    answered: none lets an error escape.  The body of [GET /] has no
    [success] field and its status is 200; in every other answer [success]
    is [true] exactly when the status is 200, the other statuses being
    400, 401, 404 and 500. *)
Theorem every_route_is_answered (W : World) (r : Route W)
        (s : State (number W)) :
  ∃ answer, (route W r s).1 = Returned answer ∧
    match answer with
    | inl a =>
        (status a = 200%Z ∧ success (json a) = true) ∨
        (status a ∈ [400; 401; 404; 500]%Z ∧ success (json a) = false)
    | inr b =>
        match reply_success W (reply_json b) with
        | Some true => reply_status b = 200%Z
        | Some false => reply_status b ∈ [400; 404; 500]%Z
        | None => r = GET_root ∧ reply_status b = 200%Z
        end
    end.
Proof.
  destruct r as [c|req| | |webhookId|].
  - destruct (serve_answers W c s) as (answer & Hrun & Hok).
    exists (inl answer). split; [|exact Hok].
    unfold route, bind. destruct (serve W c s) as [[a|e] s1]; [|done].
    cbn in *. by simplify_eq.
  - pose proof (validateWebhookToken_cases W req s) as Hcases.
    unfold route, post_extract, bind.
    destruct (validateWebhookToken W req s) as [[[answer|t]|e] s1]; [| |done].
    + exists (inl answer). split; [done|]. right.
      destruct Hcases as (_ & [[_ ->]|[_ [_ ->]]]); cbn;
        (split; [set_solver|done]).
    + destruct (extract_one_answers W req t s1) as (reply & Hrun & Hok).
      exists (inr reply). destruct (extract_one W req t s1) as [[b|e] s2];
        [|done]. cbn in Hrun. simplify_eq. split; [done|].
      by repeat case_match.
  - eexists. split; [reflexivity|]. by cbn.
  - eexists. split; [reflexivity|]. by cbn.
  - unfold route, get_webhook, bind, stores. cbn.
    destruct (find _ _); eexists; (split; [reflexivity|]); cbn; set_solver.
  - eexists. split; [reflexivity|]. by cbn.
Qed.

(** ** The text of an HTML result *)

Lemma trim_start_spec (s : jsstring) :
  (∀ c, head (trim_start s) = Some c → is_space c = false) ∧
  ∃ a, s = a ++ trim_start s ∧ Forall (λ c, is_space c = true) a.
Proof.
  induction s as [|c s [IHhead (a & IHsplit & IHa)]].
  - split; [done|]. by exists [].
  - cbn [trim_start]. destruct (is_space c) eqn:Hc.
    + split; [done|]. exists (c :: a). split; [by rewrite IHsplit at 1|].
      by constructor.
    + split; [by intros c' [= <-]|]. by exists [].
Qed.

Lemma trim_spec (s : jsstring) : stripped s (trim s).
Proof.
  unfold trim.
  destruct (trim_start_spec s) as (Hhead1 & a & Hs & Ha).
  destruct (trim_start_spec (rev (trim_start s))) as (Hhead2 & b & Hr & Hb).
  set (t1 := trim_start s) in *. set (t2 := trim_start (rev t1)) in *.
  assert (t1 = rev t2 ++ rev b) as Ht1.
  { rewrite <-rev_app_distr, <-Hr. by rewrite rev_involutive. }
  split; [split|].
  - intros c [l Hl]%head_Some. apply Hhead1. rewrite Ht1, Hl. done.
  - intros c [l Hl]%last_Some. apply Hhead2.
    apply (f_equal (@rev _)) in Hl.
    rewrite rev_involutive, rev_app_distr in Hl. by rewrite Hl.
  - exists a, (rev b). split; [by rewrite <-Ht1|]. split; [done|].
    by apply Forall_rev.
Qed.

Lemma collapse_spaces_single_spaced (s : jsstring) :
  single_spaced (collapse_spaces s).
Proof.
  split.
  - induction s as [|c s IH]; [constructor|]. cbn [collapse_spaces].
    destruct (is_space c) eqn:Hc.
    + destruct s as [|d s]; [by repeat constructor|].
      destruct (is_space d); [done|]. by constructor.
    + constructor; [congruence|done].
  - induction s as [|c s IH]; intros a x y b Hsplit Hx.
    { by destruct a. }
    cbn [collapse_spaces] in Hsplit. destruct (is_space c) eqn:Hc.
    + destruct s as [|d s]; [by destruct a as [|? [|]]|].
      destruct (is_space d) eqn:Hd; [by eapply IH|].
      destruct a as [|a0 a].
      * cbn [collapse_spaces] in Hsplit. rewrite Hd in Hsplit.
        by injection Hsplit as _ <- _.
      * injection Hsplit as _ Hsplit. by eapply IH.
    + destruct a as [|a0 a].
      * injection Hsplit as <- _. congruence.
      * injection Hsplit as _ Hsplit. by eapply IH.
Qed.

Lemma single_spaced_stripped (s t : jsstring) :
  single_spaced s → stripped s t → single_spaced t.
Proof.
  intros [Hall Hpairs] [_ (a & b & -> & _ & _)]. split.
  - apply Forall_app in Hall as [_ Hall]. by apply Forall_app in Hall as [Hall _].
  - intros a' x y b' -> Hx. apply (Hpairs (a ++ a') x y (b' ++ b)); [|done].
    by rewrite <-!app_assoc.
Qed.

(** X16.  In an [html] result the title is the page's title text without
    the white space at its two ends, and the text is the page's body text
    with every run of white space turned into one space and the ends
    stripped: it neither begins nor ends with white space, holds no white
    space but single spaces, and no two of them side by side. *)
Theorem html_text_is_normalized (W : World) (url : JsValue (number W))
        (token : option jsstring) (s : State (number W))
        (title description text : jsstring) (links images : list jsstring)
        (u : JsValue (number W)) (stamp : Z) :
  (extractDataFromUrl W url token s).1
  = Returned (ec_html title description text links images u stamp) →
  ∃ response doc,
    network W (length (outbound s)) url (request_headers token)
    = Returned response ∧
    cheerio W (data response) = Returned doc ∧
    stripped (title_text doc) title ∧
    stripped (collapse_spaces (body_text doc)) text ∧
    single_spaced text ∧
    links = anchor_hrefs doc ∧ images = img_srcs doc.
Proof.
  intros Hresult.
  destruct (ToString_throws url) eqn:Hprint.
  { unfold extractDataFromUrl, try_catch, bind, console_template in Hresult.
    by rewrite Hprint in Hresult. }
  destruct (extractDataFromUrl_run W url token s Hprint) as (c & Hrun & Hc).
  rewrite Hrun in Hresult. injection Hresult as ->.
  destruct (network W _ _ _) as [response|e]; [|done].
  cbn zeta in Hc. exists response.
  repeat case_match; try done.
  injection Hc as -> _ -> -> -> _ _. eexists. split; [done|].
  split; [done|]. split; [apply trim_spec|]. split; [apply trim_spec|].
  split; [|done].
  eapply single_spaced_stripped;
    [apply collapse_spaces_single_spaced|apply trim_spec].
Qed.

Lemma html_text_is_normalized_witness :
  single_spaced (lit "x y") ∧ stripped (lit " T ") (lit "T").
Proof.
  destruct (html_text_is_normalized html_world (JStr (lit "https://x.test/1"))
              None (initial_state html_world)
              (lit "T") (lit "D") (lit "x y") [lit "/a"] [lit "/i.png"]
              (JStr (lit "https://x.test/1")) 1700000000001%Z eq_refl)
    as (response & doc & Hnet & Hdoc & Htitle & _ & Htext & _).
  injection Hnet as <-. injection Hdoc as <-. done.
Defined.

(** ** What is discovered *)

Lemma url_matches_shape (s : jsstring) (us : list jsstring) :
  url_matches s us →
  Forall (λ u, ∃ scheme w,
            is_scheme scheme ∧ w ≠ [] ∧ Forall (λ c, url_char c = true) w ∧
            u = scheme ++ lit "://" ++ w ∧ occurs_in u s) us.
Proof.
  induction 1 as [|c s us _ _ IH|scheme w rest us Hscheme Hne Hw _ _ IH].
  - constructor.
  - eapply Forall_impl; [exact IH|]. cbn.
    intros u (scheme & w & ? & ? & ? & ? & a & b & ->).
    exists scheme, w. repeat split; auto. by exists (c :: a), b.
  - constructor.
    + exists scheme, w. repeat split; auto. exists [], rest.
      by rewrite <-!app_assoc.
    + eapply Forall_impl; [exact IH|]. cbn.
      intros u (scheme' & w' & ? & ? & ? & ? & a & b & ->).
      exists scheme', w'. repeat split; auto.
      exists (scheme ++ lit "://" ++ w ++ a), b. by rewrite <-!app_assoc.
Qed.

(** X17.  Every discovered URL either is the value of the [referer]
    header, taken as it is as long as it is not empty, or stands in the
    serialized body, begins with [http://] or [https://] and has at least
    one more unit, and contains no white space, no double quote and no
    angle character. *)
Theorem discovered_urls_shape (W : World) (body : option (JsValue (number W)))
        (headers : gmap jsstring jsstring) (u : jsstring) :
  u ∈ discoverUrls W body headers →
  (headers !! lit "referer" = Some u ∧ u ≠ []) ∨
  ∃ b scheme w,
    body = Some b ∧ is_object b = true ∧
    occurs_in u (JSON_stringify (JSON_number W) b) ∧
    is_scheme scheme ∧ w ≠ [] ∧ u = scheme ++ lit "://" ++ w ∧
    Forall (λ c, url_char c = true) u.
Proof.
  unfold discoverUrls. intros [Hbody|Hreferer]%elem_of_app.
  - right. destruct body as [b|]; [|by apply elem_of_nil in Hbody].
    destruct (is_object b) eqn:Hb; [|by apply elem_of_nil in Hbody].
    rewrite String_match_urlRegex_default in Hbody.
    pose proof (url_matches_shape _ _
                  (urlRegex_scan_matches
                     (length (JSON_stringify (JSON_number W) b))
                     (JSON_stringify (JSON_number W) b) (Nat.le_refl _)))
      as Hshape.
    rewrite Forall_forall in Hshape.
    destruct (Hshape u Hbody) as (scheme & w & Hscheme & Hne & Hw & -> & Hin).
    exists b, scheme, w. repeat split; auto.
    apply Forall_app. split; [by destruct Hscheme as [-> | ->]; vm_compute;
                               repeat constructor|].
    apply Forall_app. split; [by vm_compute; repeat constructor|done].
  - left. destruct (headers !! lit "referer") as [r|];
      [|by apply elem_of_nil in Hreferer].
    case_bool_decide; [by apply elem_of_nil in Hreferer|].
    apply list_elem_of_singleton in Hreferer as ->. done.
Qed.

Lemma discovered_urls_shape_witness :
  Forall (λ c, url_char c = true) (lit "https://x.test/2").
Proof.
  destruct (discovered_urls_shape frozen_world (Some sample_body) ∅
              (lit "https://x.test/2")) as [[Hreferer _]|Hbody].
  - vm_compute. set_solver.
  - vm_compute in Hreferer. discriminate.
  - by destruct Hbody as (b & scheme & w & _ & _ & _ & _ & _ & _ & Hchars).
Defined.

(** ** The token check on other values *)

(** X18.  A [token] query parameter that arrives as an array or an object
    (given twice, or with brackets) is never accepted, even when it holds
    a valid token: with no token in the headers the answer is
    [Invalid webhook token], and nothing changes. *)
Theorem structured_token_is_invalid (W : World) (req : Request (number W))
        (s : State (number W)) (v : QueryValue) :
  (req_headers req !! lit "x-webhook-token" = None ∨
   req_headers req !! lit "x-webhook-token" = Some []) →
  (req_headers req !! lit "authorization" = None ∨
   req_headers req !! lit "authorization" = Some []) →
  req_query req !! lit "token" = Some v →
  (∀ t, v ≠ QStr t) →
  validateWebhookToken W req s = (Returned (inl (token_invalid W)), s).
Proof.
  intros Hx Ha Hq Hv.
  assert (request_token W req = Some v) as Htoken.
  { unfold request_token. rewrite Hq.
    by destruct Hx as [-> | ->], Ha as [-> | ->]. }
  unfold validateWebhookToken. rewrite Htoken.
  destruct v as [t|items|props]; [by destruct (Hv t)|done|done].
Qed.

Lemma structured_token_is_invalid_witness :
  validateWebhookToken frozen_world doubled_token_request
    (initial_state frozen_world)
  = (Returned (inl (token_invalid frozen_world)), initial_state frozen_world).
Proof.
  eapply (structured_token_is_invalid frozen_world doubled_token_request);
    [by left|by left|reflexivity|discriminate].
Defined.

(** ** The first version of the server *)

(** X19.  The first version's [POST /webhook] and the ingestion handlers
    of the current server record a request alike: started from the same
    webhooks and the same clock, they leave the same list of webhooks (the
    old ones and one new record) and report the same [webhookId] and
    [timestamp], whatever URLs the current server goes on to fetch. *)
Theorem legacy_records_alike (W : World) (credential : option jsstring)
        (msg : jsstring) (req : Request (number W)) (s : State (number W)) :
  ∃ webhookId stamp urlsFound extracted,
    (Legacy.post_webhook W req (legacy_of W s)).1
    = Returned (200%Z, Legacy.received (lit "Webhook received successfully")
                                       webhookId stamp) ∧
    (ingest W credential msg req s).1
    = Returned {| status := 200;
                  json := res_webhook msg webhookId stamp urlsFound
                            extracted |} ∧
    Legacy.webhookData W (Legacy.post_webhook W req (legacy_of W s)).2
    = webhookData (ingest W credential msg req s).2.
Proof.
  rewrite ingest_run. cbn [fst snd].
  destruct (extract_all_spec W credential
              (discoverUrls W (req_body req) (req_headers req))
              (recorded W req s)) as (_ & _ & -> & _).
  eexists _, _, _, _. split; [reflexivity|]. split; reflexivity.
Qed.

(** ** Clearing the webhooks *)

(** X20.  After [DELETE /webhooks] the list of [GET /webhooks] is empty
    with count 0, [GET /] reports no webhook, and every lookup by id
    answers 404; the extraction results and the tokens are as before. *)
Theorem cleared_webhooks_are_gone (W : World) (s : State (number W)) :
  let s' := (delete_webhooks W s).2 in
  (get_webhooks W s').1
  = Returned {| reply_status := 200; reply_json := rd_webhooks 0 [] |} ∧
  (health W s').1
  = Returned {| reply_status := 200;
                reply_json := rd_health (lit "Simple Webhook Server is running!")
                                (lit "healthy") (clock W (clock_reads s)) 0 |} ∧
  (∀ webhookId,
     (get_webhook W webhookId s').1
     = Returned {| reply_status := 404;
                   reply_json := rd_failure (lit "Webhook not found") |}) ∧
  extractedData s' = extractedData s ∧ webhookTokens s' = webhookTokens s.
Proof. by repeat split. Qed.

(** ** Counting uses *)

Lemma post_webhook_counts (W : World) (req : Request (number W))
      (s : State (number W)) (t : jsstring) (d : TokenData (number W)) :
  request_token W req = Some (QStr t) → t ≠ [] →
  webhookTokens s !! t = Some d →
  webhookTokens (serve W (POST_webhook req) s).2
  = <[t := {| name := name d; created := created d;
              lastUsed := Some (clock W (clock_reads s));
              usageCount := usageCount d + 1 |}]> (webhookTokens s).
Proof.
  intros Htoken Hne Hd. unfold serve. rewrite error_middleware_state.
  destruct (proj2 (validateWebhookToken_succeeds W req s))
    as (t' & s1 & Hrun); [by eauto|].
  pose proof (validateWebhookToken_cases W req s) as Hcases.
  rewrite Hrun in Hcases. destruct Hcases as (Ht' & _ & d' & Hd' & Hs1).
  rewrite Htoken in Ht'. injection Ht' as <-.
  rewrite Hd in Hd'. injection Hd' as <-.
  unfold post_webhook, gated, bind. rewrite Hrun, ingest_tokens.
  by rewrite Hs1.
Qed.

(** X22.  The usage counter counts: after [n] webhooks in a row that
    present the same accepted token on [POST /webhook], the token's count
    is [n] more than before, and its name and creation time are as
    before. *)
Theorem usage_counts_accepted_webhooks (W : World)
        (reqs : list (Request (number W))) (s : State (number W))
        (t : jsstring) (d : TokenData (number W)) :
  Forall (λ req, request_token W req = Some (QStr t)) reqs → t ≠ [] →
  webhookTokens s !! t = Some d →
  ∃ d', webhookTokens (run W (POST_webhook <$> reqs) s) !! t = Some d' ∧
        usageCount d' = usageCount d + N.of_nat (length reqs) ∧
        name d' = name d ∧ created d' = created d.
Proof.
  intros Hreqs Hne. revert s d.
  induction Hreqs as [|req reqs Hreq _ IH]; intros s d Hd.
  - exists d. cbn. split; [done|]. split; [lia|done].
  - rewrite fmap_cons, run_cons.
    pose proof (post_webhook_counts W req s t d Hreq Hne Hd) as Hstep.
    edestruct IH as (d' & Hd' & Hcount & Hname & Hcreated).
    { rewrite Hstep. apply lookup_insert_eq. }
    exists d'. split; [exact Hd'|]. cbn in *. split; [lia|done].
Qed.

Lemma usage_counts_accepted_webhooks_witness :
  ∃ d', webhookTokens
          (run frozen_world (POST_webhook (W := frozen_world) <$> three_authorized)
               (initial_state frozen_world)) !! defaultToken = Some d' ∧
        usageCount d' = 3.
Proof.
  edestruct (usage_counts_accepted_webhooks frozen_world three_authorized
               (initial_state frozen_world) defaultToken)
    as (d' & Hd' & Hcount & _).
  - repeat constructor.
  - discriminate.
  - vm_compute. reflexivity.
  - exists d'. split; [exact Hd'|]. rewrite Hcount. reflexivity.
Defined.

(** ** A batch item that cannot be printed *)

(** X23.  A batch whose first item is an object with a property
    [toString] is answered 500: every console line that mentions the item
    throws, the one in the loop's [catch] included, so the loop is left
    and the remaining items are never looked at.  Nothing is fetched and
    nothing is stored. *)
Theorem batch_stops_at_unprintable_item (W : World) (req : Request (number W))
        (webhookToken : jsstring) (s : State (number W))
        (props item : list (jsstring * JsValue (number W)))
        (rest : list (JsValue (number W))) :
  req_body req = Some (JObj props) →
  own_property (lit "urls") props = Some (JArr (JObj item :: rest)) →
  is_Some (own_property (lit "toString") item) →
  (extract_batch W req webhookToken s).1
  = Returned {| status := 500;
                json := res_internal_error (lit "Internal server error")
                          (lit "Cannot convert object to primitive value") |} ∧
  extractedData (extract_batch W req webhookToken s).2 = extractedData s ∧
  outbound (extract_batch W req webhookToken s).2 = outbound s ∧
  webhookData (extract_batch W req webhookToken s).2 = webhookData s.
Proof.
  intros Hbody Hurls Hitem.
  assert (ToString_throws (JObj item) = true) as Hthrows.
  { cbn [ToString_throws]. apply existsb_exists.
    destruct Hitem as [v Hv]. clear -Hv.
    induction item as [|[k v'] item IH]; [done|]. cbn [own_property] in Hv.
    case_bool_decide as Hk.
    - exists (k, v'). split; [by left|]. by apply bool_decide_eq_true.
    - destruct (IH Hv) as (kv & Hin & Hkv). exists kv. split; [by right|done]. }
  unfold extract_batch, try_catch, bind, destructure, with_local.
  rewrite Hbody. cbn [ret]. rewrite Hurls. cbn [for_of].
  unfold bind at 1, batch_round, try_catch, bind, on_stores,
    extractDataFromUrl, try_catch, bind, console_template.
  cbn [fst snd]. rewrite Hthrows. by cbn.
Qed.

Lemma batch_stops_at_unprintable_item_witness :
  (extract_batch frozen_world unprintable_batch defaultToken
     (initial_state frozen_world)).1
  = Returned {| status := 500;
                json := res_internal_error (lit "Internal server error")
                          (lit "Cannot convert object to primitive value") |}.
Proof.
  eapply (batch_stops_at_unprintable_item frozen_world unprintable_batch);
    [reflexivity|reflexivity|by eexists].
Defined.
